(** * DatabaseManager: accounts, machines, labels and the daily cleanup

    A shallow embedding of [src/database/DatabaseManager.ts] and of the
    [Validators] class it calls.  Promises are values that are either
    resolved or rejected, the three mongoose collections are finite maps
    from document ids to documents, and every operation is a function
    from the store to a settled promise and the store that results. *)

From Stdlib Require Import ZArith Ascii String List Bool Lia.
From stdpp Require Import base option list gmap fin_maps.
Import ListNotations.

Local Open Scope string_scope.
Local Open Scope Z_scope.

(** ** Characters and strings

    A JavaScript string is modelled by its sequence of UTF-16 code units;
    the model covers the strings whose code units are all below 256 (the
    Latin-1 range), one [ascii] per code unit. *)

Definition chars (s : string) : list ascii := list_ascii_of_string s.

Definition code (c : ascii) : N := N_of_ascii c.

Definition between (lo hi : N) (c : ascii) : bool :=
  ((lo <=? code c) && (code c <=? hi))%N.

Definition is_digit : ascii -> bool := between 48 57.
Definition is_upper : ascii -> bool := between 65 90.
Definition is_lower : ascii -> bool := between 97 122.
Definition is_alnum (c : ascii) : bool := is_digit c || is_upper c || is_lower c.

(** [[A-Fa-f0-9]] *)
Definition is_hex (c : ascii) : bool :=
  is_digit c || between 65 70 c || between 97 102 c.

Definition is_dash (c : ascii) : bool := (code c =? 45)%N.

(** [\s] below 256: tab, line feed, vertical tab, form feed, carriage
    return, space and the no-break space U+00A0. *)
Definition is_space (c : ascii) : bool :=
  between 9 13 c || (code c =? 32)%N || (code c =? 160)%N.

(** The code units below 256 that [toLowerCase] changes: A-Z, and the
    capital letters U+00C0-U+00DE of Latin-1 without the sign U+00D7. *)
Definition is_capital (c : ascii) : bool :=
  is_upper c || between 192 214 c || between 216 222 c.

(** The lower-case letter of a capital one lies 32 code units above it. *)
Definition lower_char (c : ascii) : ascii :=
  if is_capital c then ascii_of_N (code c + 32) else c.

(** [String.prototype.toLowerCase] *)
Definition toLowerCase (s : string) : string :=
  string_of_list_ascii (map lower_char (chars s)).

(** [s.replace(/\s/g, "-")] *)
Definition dash_spaces (s : string) : string :=
  string_of_list_ascii (map (fun c => if is_space c then "-"%char else c) (chars s)).

(** [s.replace(/-/g, "")] *)
Definition strip_dashes (s : string) : string :=
  string_of_list_ascii (List.filter (fun c => negb (is_dash c)) (chars s)).

(** Truthiness of a string that may be [undefined]: only a non-empty
    string is truthy. *)
Definition truthy_str (s : option string) : bool :=
  match s with
  | Some s => negb (String.eqb s "")
  | None => false
  end.

(** Truthiness of a number that may be [undefined]: [undefined] and [0]
    are falsy. *)
Definition truthy_num (n : option Z) : bool :=
  match n with
  | Some n => negb (n =? 0)
  | None => false
  end.

(** [a < b] where [a] may be [undefined]: [undefined] converts to [NaN],
    and every comparison with [NaN] is false. *)
Definition js_lt (a : option Z) (b : Z) : bool :=
  match a with
  | Some a => a <? b
  | None => false
  end.

(** ** The joi rules used by the validators *)

Module Joi.

(** [Joi.string()]: the empty string is not a valid string. *)
Definition string_ (s : string) : bool := negb (String.eqb s "").

Definition min (n : nat) (s : string) : bool := (n <=? String.length s)%nat.
Definition max (n : nat) (s : string) : bool := (String.length s <=? n)%nat.

(** [alphanum()]: only [a-z], [A-Z] and [0-9]. *)
Definition alphanum (s : string) : bool := forallb is_alnum (chars s).

(** Exactly [n] hexadecimal digits, then the rest. *)
Fixpoint hex (n : nat) (s : list ascii) : option (list ascii) :=
  match n with
  | O => Some s
  | S n' =>
      match s with
      | c :: s' => if is_hex c then hex n' s' else None
      | [] => None
      end
  end.

(** An optional character of a class: [([...]?)]. *)
Definition optional (cls : ascii -> bool) (s : list ascii) : option ascii * list ascii :=
  match s with
  | c :: s' => if cls c then (Some c, s') else (None, s)
  | [] => (None, s)
  end.

(** [\2?]: the text of an earlier group, optionally. *)
Definition backref (g : option ascii) (s : list ascii) : list ascii :=
  match g, s with
  | Some d, c :: s' => if Ascii.eqb c d then s' else s
  | _, _ => s
  end.

Definition is_open (c : ascii) : bool :=
  Ascii.eqb c "["%char || Ascii.eqb c "{"%char || Ascii.eqb c "("%char.
Definition is_close (c : ascii) : bool :=
  Ascii.eqb c "]"%char || Ascii.eqb c "}"%char || Ascii.eqb c ")"%char.
Definition is_separator (c : ascii) : bool :=
  Ascii.eqb c ":"%char || Ascii.eqb c "-"%char.

(** The closing bracket that goes with an opening one. *)
Definition brackets (o c : option ascii) : bool :=
  match o, c with
  | None, None => true
  | Some o, Some c =>
      (Ascii.eqb o "["%char && Ascii.eqb c "]"%char)
      || (Ascii.eqb o "{"%char && Ascii.eqb c "}"%char)
      || (Ascii.eqb o "("%char && Ascii.eqb c ")"%char)
  | _, _ => false
  end.

(** [uuid()] with no version: joi matches
    [^([\[{\(]?)H{8}([:-]?)H{4}\2?H{4}\2?H{4}\2?H{12}([\]}\)]?)$]
    without regard to case, then checks that the brackets pair up. *)
Definition uuid (s : string) : bool :=
  let '(o, s) := optional is_open (chars s) in
  match hex 8 s with
  | None => false
  | Some s =>
      let '(sep, s) := optional is_separator s in
      match hex 4 s with
      | None => false
      | Some s =>
          match hex 4 (backref sep s) with
          | None => false
          | Some s =>
              match hex 4 (backref sep s) with
              | None => false
              | Some s =>
                  match hex 12 (backref sep s) with
                  | None => false
                  | Some s =>
                      let '(c, s) := optional is_close s in
                      match s with
                      | [] => brackets o c
                      | _ :: _ => false
                      end
                  end
              end
          end
      end
  end.

End Joi.

(** ** Validators ([src/validators.ts]) *)

Module Validators.

(** [/^#([A-Fa-f0-9]{6}|[A-Fa-f0-9]{3})$/], after the early return on
    the empty string. *)
Definition validate_hex_color (color : string) : bool :=
  if String.eqb color "" then true
  else
    match chars color with
    | c :: digits =>
        Ascii.eqb c "#"%char
        && forallb is_hex digits
        && ((length digits =? 6) || (length digits =? 3))%nat
    | [] => false
    end.

Definition validate_password (password : string) : bool :=
  Joi.string_ password && Joi.min 4 password && Joi.max 64 password.

Definition validate_username (username : string) : bool :=
  Joi.string_ username && Joi.min 4 username && Joi.max 32 username
  && Joi.alphanum username.

(** [/^[a-z0-9-_]+$/] *)
Definition label_name_pattern (s : string) : bool :=
  negb (String.eqb s "")
  && forallb (fun c => is_lower c || is_digit c || is_dash c || Ascii.eqb c "_"%char)
       (chars s).

Definition validate_label_name (label_name : string) : bool :=
  Joi.string_ label_name && Joi.min 3 label_name && Joi.max 16 label_name
  && label_name_pattern label_name.

Definition validate_label_description (label_description : string) : bool :=
  Joi.string_ label_description && Joi.max 300 label_description.

Definition validate_uuid (uuid : string) : bool :=
  Joi.string_ uuid && Joi.uuid uuid.

(** [LABEL_ICONS.includes(label_icon)] *)
Definition validate_label_icon (LABEL_ICONS : list string) (label_icon : string) : bool :=
  existsb (String.eqb label_icon) LABEL_ICONS.

(** The pieces of a string between the occurrences of a separator. *)
Fixpoint split_on (sep : ascii) (s : list ascii) : list (list ascii) :=
  match s with
  | [] => [[]]
  | c :: s' =>
      if Ascii.eqb c sep then [] :: split_on sep s'
      else
        match split_on sep s' with
        | piece :: pieces => (c :: piece) :: pieces
        | [] => [[c]]
        end
  end.

(** One dot-free piece of a host name: [X|XY*X] where [X] is a letter
    or digit and [Y] also allows the hyphen. *)
Definition host_label (l : list ascii) : bool :=
  match l with
  | [] => false
  | c :: _ =>
      is_alnum c && is_alnum (List.last l c)
      && forallb (fun c => is_alnum c || is_dash c) l
  end.

(** [/^((X|XY*X)\.)*(X|XY*X)$/]: no piece holds a dot, so the pieces are
    those between the dots. *)
Definition hostname_pattern (s : string) : bool :=
  forallb host_label (split_on "."%char (chars s)).

Definition validate_hostname (hostname : string) : bool :=
  Joi.string_ hostname && hostname_pattern hostname && Joi.max 253 hostname.

End Validators.

(** ** Documents

    The fields the manager reads or writes.  The fields of
    [IBaseDocument] ([uuid], [created_at], [updated_at]) are filled in by
    the schemas and read only by log lines; a document is identified by
    the id under which its collection stores it. *)

(** Modelled from the spec: the enum [MachineStatus] of
    [schemas/machine] has the states [Online] and [Offline]; a machine
    that never reported has no status yet, which is the [None] of the
    [status] field below. *)
Inductive MachineStatus := Online | Offline.

Definition status_eqb (a : option MachineStatus) (b : MachineStatus) : bool :=
  match a, b with
  | Some Online, Online | Some Offline, Offline => true
  | _, _ => false
  end.

Module IMachine.
Record t := mk {
  hardware_uuid : string;
  owner_uuid : string;
  name : string;
  access_token : string;
  status : option MachineStatus;
  last_update : option Z
}.

(** [machine.status = s] *)
Definition set_status (s : MachineStatus) (m : t) : t :=
  mk (hardware_uuid m) (owner_uuid m) (name m) (access_token m) (Some s) (last_update m).
End IMachine.

Module IUser.
Record t := mk {
  username : string;
  email : string;
  password : string   (* as stored: the hash of the password *)
}.
End IUser.

Module ILabel.
Record t := mk {
  owner_uuid : string;
  name : string;
  color : string;
  description : option string;
  icon : option string
}.
End ILabel.

Module UserSignupInput.
Record t := mk { username : string; email : string; password : string }.
End UserSignupInput.

Module CreateMachineInput.
Record t := mk { hardware_uuid : string; owner_uuid : string; hostname : string }.
End CreateMachineInput.

Module ICreateLabelInput.
Record t := mk {
  owner_uuid : string;
  name : string;
  color : option string;
  icon : option string;
  description : option string
}.
End ICreateLabelInput.

Definition IncomingHttpHeaders : Type := list (string * string).

(** [{ user, token }] *)
Definition UserAuthResult : Type := IUser.t * string.

(** ** Promises and errors *)

(** What a storage or library call throws. *)
Inductive error :=
| MongoServerError (code : Z)
| Error (message : string).

(** What a promise is rejected with: a message of the manager, or an
    error object passed on as it was caught. *)
Inductive reason :=
| Message (s : string)
| Thrown (e : error).

Inductive promise (A : Type) :=
| Resolved (a : A)
| Rejected (r : reason).
Arguments Resolved {A} a.
Arguments Rejected {A} r.

(** An entry of the array [Promise.allSettled] resolves to. *)
Inductive settled (A : Type) :=
| fulfilled (value : A)
| rejected (why : reason).
Arguments fulfilled {A} value.
Arguments rejected {A} why.

Definition settle {A} (p : promise A) : settled A :=
  match p with
  | Resolved a => fulfilled a
  | Rejected r => rejected r
  end.

(** ** The store *)

Inductive collection := c_user | c_label | c_machine.

(** The storage calls the manager makes; a fault is attached to a call. *)
Inductive call :=
| Find (c : collection)
| FindOne (c : collection)
| Create (c : collection)
| DeleteOne (c : collection)
| DocSave (id : nat)
| DocDelete (id : nat).

(** The writes issued to the store, in the order of issue; a write is
    recorded when it is issued, whether or not the store then carries it
    out. *)
Inductive write :=
| CreateUser (u : IUser.t)
| CreateMachine (m : IMachine.t)
| CreateLabel (l : ILabel.t)
| SaveMachine (id : nat) (m : IMachine.t)
| DeleteMachine (id : nat)
| DeleteOneUser (username : string).

Record Store := mkStore {
  users : gmap nat IUser.t;
  machines : gmap nat IMachine.t;
  labels : gmap nat ILabel.t;
  journal : list write
}.

Definition set_users (us : gmap nat IUser.t) (st : Store) : Store :=
  mkStore us (machines st) (labels st) (journal st).
Definition set_machines (ms : gmap nat IMachine.t) (st : Store) : Store :=
  mkStore (users st) ms (labels st) (journal st).
Definition set_labels (ls : gmap nat ILabel.t) (st : Store) : Store :=
  mkStore (users st) (machines st) ls (journal st).
Definition issue (w : write) (st : Store) : Store :=
  mkStore (users st) (machines st) (labels st) (journal st ++ [w])%list.

(** ** The environment of one operation

    Everything an operation reads that is neither its argument nor the
    store: the process environment, the clock, the random sources, the
    methods of the user schema and the faults of the storage layer. *)
Record Env := mkEnv {
  (** [process.env.SHARD_ID] *)
  SHARD_ID : option string;
  (** [Date.now()], in milliseconds; one operation sees one time *)
  now : Z;
  (** the value of the [k]-th call of [uuidv4()] in the operation *)
  uuidv4 : nat -> string;
  (** [randomHexColor()] of [src/logic] *)
  randomHexColor : string;
  (** [LABEL_ICONS] of [schemas/label] *)
  LABEL_ICONS : list string;
  (** what the user schema stores for a password *)
  hash_password : string -> string;
  (** [user.compare_password(password)] *)
  compare_password : IUser.t -> string -> bool;
  (** [user.login(headers)]: the session token, or what signing throws *)
  login : IUser.t -> IncomingHttpHeaders -> error + string;
  (** the storage calls that fail, and with what *)
  fault : call -> option error;
  (** whether mongoose sends a query that the caller builds and then
      neither awaits nor executes *)
  sends_unawaited : bool
}.

(** An asynchronous operation: from the store to the promise it settles
    and the store it leaves. *)
Definition M (A : Type) : Type := Store -> promise A * Store.

#[global] Instance M_ret : MRet M := fun A a st => (Resolved a, st).

(** [await]: a rejection ends the caller with the same reason. *)
#[global] Instance M_bind : MBind M := fun A B k c st =>
  match c st with
  | (Resolved a, st') => k a st'
  | (Rejected r, st') => (Rejected r, st')
  end.

(** [return Promise.reject(r)] *)
Definition reject {A} (s : string) : M A := fun st => (Rejected (Message s), st).

(** [throw e] inside an asynchronous function *)
Definition throw {A} (e : error) : M A := fun st => (Rejected (Thrown e), st).

(** A call whose promise is kept instead of awaited: the caller goes on
    whatever the promise settles to. *)
Definition dispatch {A} (c : M A) : M (promise A) := fun st =>
  let '(p, st') := c st in (Resolved p, st').

(** [Promise.allSettled]: resolves, always, to the outcome of every
    promise of the array. *)
Definition Promise_allSettled {A} (ps : list (promise A)) : M (list (settled A)) :=
  mret (map settle ps).

(** [for (const x of xs) body], threading the variables the body updates. *)
Fixpoint for_of {A B} (xs : list A) (body : A -> B -> M B) (acc : B) : M B :=
  match xs with
  | [] => mret acc
  | x :: xs' => acc' ← body x acc; for_of xs' body acc'
  end.

(** ** The storage layer (mongoose models and documents)

    A call first consults the faults of the environment; a write is
    entered in the journal when it is issued. *)

Section Storage.

Variable e : Env.

(** A read of a collection. *)
Definition query {A} (c : call) (read : Store -> A) : M A := fun st =>
  match fault e c with
  | Some err => (Rejected (Thrown err), st)
  | None => (Resolved (read st), st)
  end.

(** A write: issued, then carried out unless the call is faulty. *)
Definition command (c : call) (w : write) (apply : Store -> Store) : M unit := fun st =>
  match fault e c with
  | Some err => (Rejected (Thrown err), issue w st)
  | None => (Resolved tt, apply (issue w st))
  end.

(** The first document a filter accepts, with its id. *)
Definition first_match {A} (filter : A -> bool) (docs : gmap nat A) : option (nat * A) :=
  List.find (fun d => filter d.2) (map_to_list docs).

(** [Model.find(filter)] *)
Definition users_find (filter : IUser.t -> bool) : M (list (nat * IUser.t)) :=
  query (Find c_user) (fun st => List.filter (fun d => filter d.2) (map_to_list (users st))).
Definition labels_find (filter : ILabel.t -> bool) : M (list (nat * ILabel.t)) :=
  query (Find c_label) (fun st => List.filter (fun d => filter d.2) (map_to_list (labels st))).
Definition machines_find (filter : IMachine.t -> bool) : M (list (nat * IMachine.t)) :=
  query (Find c_machine) (fun st => List.filter (fun d => filter d.2) (map_to_list (machines st))).

(** [Model.findOne(filter)]: a document or [null] *)
Definition users_findOne (filter : IUser.t -> bool) : M (option (nat * IUser.t)) :=
  query (FindOne c_user) (fun st => first_match filter (users st)).
Definition labels_findOne (filter : ILabel.t -> bool) : M (option (nat * ILabel.t)) :=
  query (FindOne c_label) (fun st => first_match filter (labels st)).
Definition machines_findOne (filter : IMachine.t -> bool) : M (option (nat * IMachine.t)) :=
  query (FindOne c_machine) (fun st => first_match filter (machines st)).

(** [machine.save()] and [machine.delete()] on a document that was read
    from the collection *)
Definition machine_save (id : nat) (m : IMachine.t) : M unit :=
  command (DocSave id) (SaveMachine id m)
    (fun st => set_machines (<[id:=m]> (machines st)) st).
Definition machine_delete (id : nat) : M unit :=
  command (DocDelete id) (DeleteMachine id)
    (fun st => set_machines (delete id (machines st)) st).

(** [users.deleteOne({ username })]: removes the first match, if any *)
Definition users_deleteOne (username : string) : M unit :=
  command (DeleteOne c_user) (DeleteOneUser username)
    (fun st =>
       match first_match (fun u => String.eqb (IUser.username u) username) (users st) with
       | Some (id, _) => set_users (delete id (users st)) st
       | None => st
       end).

(** [Model.create(fields)]: the new document gets an id no document of
    the collection has. *)
Definition machines_create (m : IMachine.t) : M (nat * IMachine.t) := fun st =>
  let id := fresh (dom (machines st)) in
  match command (Create c_machine) (CreateMachine m)
          (fun st => set_machines (<[id:=m]> (machines st)) st) st with
  | (Resolved _, st') => (Resolved (id, m), st')
  | (Rejected r, st') => (Rejected r, st')
  end.

Definition labels_create (l : ILabel.t) : M (nat * ILabel.t) := fun st =>
  let id := fresh (dom (labels st)) in
  match command (Create c_label) (CreateLabel l)
          (fun st => set_labels (<[id:=l]> (labels st)) st) st with
  | (Resolved _, st') => (Resolved (id, l), st')
  | (Rejected r, st') => (Rejected r, st')
  end.

(** Modelled from the spec: the user schema ([schemas/user], not among
    the sources) stores a one-way hash of the password and declares
    the uniqueness constraint on username and email whose violation
    [create] reports as a duplicate key, the [MongoServerError] with
    code 11000. *)
Definition duplicate_key (form : UserSignupInput.t) (us : gmap nat IUser.t) : bool :=
  existsb
    (fun d =>
       String.eqb (IUser.username d.2) (UserSignupInput.username form)
       || String.eqb (IUser.email d.2) (UserSignupInput.email form))
    (map_to_list us).

Definition users_create (form : UserSignupInput.t) : M (nat * IUser.t) := fun st =>
  let u := IUser.mk (UserSignupInput.username form) (UserSignupInput.email form)
             (hash_password e (UserSignupInput.password form)) in
  let id := fresh (dom (users st)) in
  match fault e (Create c_user) with
  | Some err => (Rejected (Thrown err), issue (CreateUser u) st)
  | None =>
      if duplicate_key form (users st)
      then (Rejected (Thrown (MongoServerError 11000)), issue (CreateUser u) st)
      else (Resolved (id, u), set_users (<[id:=u]> (users st)) (issue (CreateUser u) st))
  end.

(** [await user.login(headers)] *)
Definition user_login (u : IUser.t) (headers : IncomingHttpHeaders) : M string :=
  match login e u headers with
  | inl err => throw err
  | inr token => mret token
  end.

End Storage.

(** ** DatabaseManager ([src/database/DatabaseManager.ts]) *)

(** [a || b] on a string that may be [undefined] *)
Definition or_else (a : option string) (b : string) : string :=
  match a with
  | Some s => if String.eqb s "" then b else s
  | None => b
  end.

(** [a !== b] where [a] may be [undefined] *)
Definition strict_neq (a : option string) (b : string) : bool :=
  match a with
  | Some s => negb (String.eqb s b)
  | None => true
  end.

(** A document is an object, and an object is truthy. *)
Definition truthy_doc {A} (d : A) : bool := true.

(** [x ?? Promise.reject(msg)] *)
Definition or_reject {A} (x : option A) (msg : string) : M A :=
  match x with
  | Some d => mret d
  | None => reject msg
  end.

(** [try { body } catch (error) { handler }] around awaited calls *)
Definition try_catch {A} (body : M A) (handler : reason -> M A) : M A := fun st =>
  match body st with
  | (Resolved a, st') => (Resolved a, st')
  | (Rejected r, st') => handler r st'
  end.

(** [return Promise.reject(error)] with the caught value *)
Definition reject_with {A} (r : reason) : M A := fun st => (Rejected r, st).

Definition document (c : collection) : Type :=
  match c with
  | c_user => IUser.t
  | c_label => ILabel.t
  | c_machine => IMachine.t
  end.

Definition collection_name (c : collection) : string :=
  match c with
  | c_user => "user"
  | c_label => "label"
  | c_machine => "machine"
  end.

Section DatabaseManager.

Variable e : Env.

(** The two staleness thresholds of the cleanup, in milliseconds. *)
Definition thirty_days : Z := 1000 * 60 * 60 * 24 * 30.
Definition ten_seconds : Z := 1000 * 10.

(** The body of the loop over the machines: what it adds to [promises]. *)
Definition cleanup_machine (doc : nat * IMachine.t) (promises : list (promise unit))
  : M (list (promise unit)) :=
  let '(id, machine) := doc in
  if negb (truthy_num (IMachine.last_update machine))
     || js_lt (IMachine.last_update machine) (now e - thirty_days)
  then
    p ← dispatch (machine_delete e id);
    mret (promises ++ [p])%list
  else if status_eqb (IMachine.status machine) Online
          && js_lt (IMachine.last_update machine) (now e - ten_seconds)
  then
    let machine := IMachine.set_status Offline machine in
    p ← dispatch (machine_save e id machine);
    mret (promises ++ [p])%list
  else mret promises.

Definition cleanup_database : M unit :=
  if truthy_str (SHARD_ID e) && strict_neq (SHARD_ID e) "1" then mret tt
  else
    machines ← machines_find e (fun _ => true);
    promises ← for_of machines cleanup_machine [];
    _ ← Promise_allSettled promises;
    mret tt.

Definition generate_access_token : string :=
  strip_dashes (uuidv4 e 0 ++ uuidv4 e 1 ++ uuidv4 e 2 ++ uuidv4 e 3).

Definition new_label (input : ICreateLabelInput.t) : M (nat * ILabel.t) :=
  let color := or_else (ICreateLabelInput.color input) (randomHexColor e) in
  let name := dash_spaces (toLowerCase (ICreateLabelInput.name input)) in
  if negb (Validators.validate_uuid (ICreateLabelInput.owner_uuid input))
  then reject "invalid.owner_uuid"
  else if truthy_str (Some (ICreateLabelInput.name input))
          && negb (Validators.validate_label_name name)
  then reject "invalid.label.name"
  else if truthy_str (Some color) && negb (Validators.validate_hex_color color)
  then reject "invalid.hex.color"
  else if truthy_str (ICreateLabelInput.icon input)
          && negb (Validators.validate_label_icon (LABEL_ICONS e)
                     (default "" (ICreateLabelInput.icon input)))
  then reject "invalid.label.icon"
  else if truthy_str (ICreateLabelInput.description input)
          && negb (Validators.validate_label_description
                     (default "" (ICreateLabelInput.description input)))
  then reject "invalid.label.description"
  else
    labels_create e
      (ILabel.mk (ICreateLabelInput.owner_uuid input) name color
         (ICreateLabelInput.description input) (ICreateLabelInput.icon input)).

(** The fields [create] is not given are left to the schema: a new
    machine has no status and no [last_update] yet. *)
Definition new_machine (input : CreateMachineInput.t) : M (nat * IMachine.t) :=
  if negb (Validators.validate_uuid (CreateMachineInput.hardware_uuid input))
  then reject "invalid.hardware_uuid"
  else if negb (Validators.validate_uuid (CreateMachineInput.owner_uuid input))
  then reject "invalid.owner_uuid"
  else if negb (Validators.validate_hostname (CreateMachineInput.hostname input))
  then reject "invalid.hostname"
  else
    let access_token := generate_access_token in
    machines_create e
      (IMachine.mk (CreateMachineInput.hardware_uuid input)
         (CreateMachineInput.owner_uuid input)
         (CreateMachineInput.hostname input)
         access_token None None).

Definition new_user (form : UserSignupInput.t) (headers : IncomingHttpHeaders)
  : M UserAuthResult :=
  try_catch
    (user ← users_create e form;
     token ← user_login e user.2 headers;
     mret (user.2, token))
    (fun error =>
       match error with
       | Thrown (MongoServerError code) =>
           if code =? 11000 then reject "user.exists" else reject_with error
       | _ => reject_with error
       end).

Definition find_one (c : collection) : (document c -> bool) -> M (nat * document c) :=
  match c with
  | c_user => fun filter =>
      found ← users_findOne e filter;
      or_reject found (collection_name c_user ++ ".notFound")
  | c_label => fun filter =>
      found ← labels_findOne e filter;
      or_reject found (collection_name c_label ++ ".notFound")
  | c_machine => fun filter =>
      found ← machines_findOne e filter;
      or_reject found (collection_name c_machine ++ ".notFound")
  end.

(** An array is never nullish, so the rejection after [??] is not taken. *)
Definition find (c : collection) : (document c -> bool) -> M (list (nat * document c)) :=
  match c with
  | c_user => fun filter =>
      found ← users_find e filter;
      or_reject (Some found) (collection_name c_user ++ "s.notFound")
  | c_label => fun filter =>
      found ← labels_find e filter;
      or_reject (Some found) (collection_name c_label ++ "s.notFound")
  | c_machine => fun filter =>
      found ← machines_find e filter;
      or_reject (Some found) (collection_name c_machine ++ "s.notFound")
  end.

Definition find_machine := find_one c_machine.
Definition find_user := find_one c_user.
Definition find_label := find_one c_label.
Definition find_machines := find c_machine.
Definition find_users := find c_user.
Definition find_labels := find c_label.

(** The filter [{ username }] *)
Definition by_username (username : string) (u : IUser.t) : bool :=
  String.eqb (IUser.username u) username.

(** The filter [{ access_token }] *)
Definition by_access_token (access_token : string) (m : IMachine.t) : bool :=
  String.eqb (IMachine.access_token m) access_token.

Definition login_user (username password : string) (headers : IncomingHttpHeaders)
  : M UserAuthResult :=
  if negb (Validators.validate_password password) then reject "invalid.password"
  else if negb (Validators.validate_username username) then reject "invalid.username"
  else
    user ← find_user (by_username username);
    if truthy_doc user && compare_password e user.2 password
    then
      token ← user_login e user.2 headers;
      mret (user.2, token)
    else reject "invalid credentials".

Definition login_machine (access_token : string) : M (nat * IMachine.t) :=
  machine ← machines_findOne e (by_access_token access_token);
  match machine with
  | None => reject "Invalid access token"
  | Some (id, machine) =>
      let machine := IMachine.set_status Online machine in
      _ ← machine_save e id machine;
      mret (id, machine)
  end.

(** The query [users.deleteOne] returns is neither awaited nor executed
    by [delete_user]: if mongoose sends it at all, its outcome does not
    reach the caller. *)
Definition unawaited {A} (c : M A) : M unit :=
  if sends_unawaited e then _ ← dispatch c; mret tt else mret tt.

Definition delete_user (username password : string) : M unit :=
  if negb (Validators.validate_password password) then reject "invalid.password"
  else if negb (Validators.validate_username username) then reject "invalid.username"
  else
    user ← find_user (by_username username);
    if truthy_doc user && compare_password e user.2 password
    then unawaited (users_deleteOne e username)
    else mret tt.

End DatabaseManager.

(** ** The liveness rule, as a decision on one machine *)

Inductive reap_action := Evict | Demote | NoTransition.

(** The writes an action on the machine stored under [id] issues. *)
Definition reap_writes (id : nat) (m : IMachine.t) (a : reap_action) : list write :=
  match a with
  | Evict => [DeleteMachine id]
  | Demote => [SaveMachine id (IMachine.set_status Offline m)]
  | NoTransition => []
  end.

(** [reap_check(now)] in the words of the specification: eviction when
    [last_update] is undefined or older than thirty days, else demotion
    of an online machine silent for more than ten seconds. *)
Definition reap_check_spec (now : Z) (m : IMachine.t) : reap_action :=
  match IMachine.last_update m with
  | None => Evict
  | Some t =>
      if now - t >? thirty_days then Evict
      else if status_eqb (IMachine.status m) Online && (now - t >? ten_seconds) then Demote
      else NoTransition
  end.

(** The same rule with the timestamp [0] counted as no timestamp. *)
Definition reap_check (now : Z) (m : IMachine.t) : reap_action :=
  match IMachine.last_update m with
  | None => Evict
  | Some t =>
      if (t =? 0) || (now - t >? thirty_days) then Evict
      else if status_eqb (IMachine.status m) Online && (now - t >? ten_seconds) then Demote
      else NoTransition
  end.

(** What the store holds under [id] once the write of an action has
    settled: a write whose call is faulty leaves the document as it was. *)
Definition reap_result (e : Env) (id : nat) (m : IMachine.t) (a : reap_action)
  : option IMachine.t :=
  match a with
  | Evict =>
      match fault e (DocDelete id) with
      | Some _ => Some m
      | None => None
      end
  | Demote =>
      match fault e (DocSave id) with
      | Some _ => Some m
      | None => Some (IMachine.set_status Offline m)
      end
  | NoTransition => Some m
  end.

(** The writes of one sweep over the documents [docs]. *)
Definition sweep_writes (now : Z) (docs : list (nat * IMachine.t)) : list write :=
  flat_map (fun d => reap_writes d.1 d.2 (reap_check now d.2)) docs.

(** [heartbeat_received] in the words of the specification: the machine
    becomes [Online] and [last_update] becomes the current time. *)
Definition heartbeat_received_spec (now : Z) (m : IMachine.t) : IMachine.t :=
  IMachine.mk (IMachine.hardware_uuid m) (IMachine.owner_uuid m) (IMachine.name m)
    (IMachine.access_token m) (Some Online) (Some now).

(** The shard guard in the words of the specification: the sweep is
    skipped when the shard identifier is set to a value other than 1. *)
Definition shard_skips_spec (shard : option string) : bool :=
  match shard with
  | Some s => negb (String.eqb s "1")
  | None => false
  end.

(** The guard with the empty identifier counted as no identifier. *)
Definition shard_skips (shard : option string) : bool :=
  match shard with
  | Some s => negb (String.eqb s "") && negb (String.eqb s "1")
  | None => false
  end.

(** An identifier as [uuidv4()] prints it: 8-4-4-4-12 hexadecimal digits
    between dashes, 128 bits in all. *)
Inductive slot := Hex | Dash.

Definition uuid_shape : list slot :=
  (repeat Hex 8 ++ Dash :: repeat Hex 4 ++ Dash :: repeat Hex 4 ++ Dash :: repeat Hex 4
   ++ Dash :: repeat Hex 12)%list.

Fixpoint fits (shape : list slot) (s : list ascii) : bool :=
  match shape, s with
  | [], [] => true
  | Hex :: shape', c :: s' => is_hex c && fits shape' s'
  | Dash :: shape', c :: s' => is_dash c && fits shape' s'
  | _, _ => false
  end.

Definition canonical_uuid (s : string) : bool := fits uuid_shape (chars s).

(** The hexadecimal positions of a shape. *)
Definition hex_slots (shape : list slot) : nat :=
  length (List.filter (fun s => match s with Hex => true | Dash => false end) shape).

(** A string of hexadecimal digits only. *)
Definition all_hex (s : string) : bool := forallb is_hex (chars s).

(** The duplicate-key error of the storage layer. *)
Definition is_duplicate_key (err : error) : bool :=
  match err with
  | MongoServerError code => code =? 11000
  | Error _ => false
  end.

(** The documents of a list that is read from a collection: distinct ids,
    each still stored as it was read. *)
Definition read_from (docs : list (nat * IMachine.t)) (st : Store) : Prop :=
  NoDup docs.*1 /\ forall id m, (id, m) ∈ docs -> machines st !! id = Some m.

(** ** Sample data *)

Module Sample.

Definition an_uuid : string := "8bb3cf50-077a-4586-8567-58f596504a0e".
Definition other_uuid : string := "0f8fad5b-d9cb-469f-a165-70867728950e".

(** A deployment with the given shard identifier, clock and storage
    faults; passwords are stored behind a prefix and compared with it. *)
Definition env (shard : option string) (now : Z) (fault : call -> option error) : Env :=
  mkEnv shard now (fun _ => an_uuid) "#a1b2c3" ["server"; "cloud"]
    (fun p => "hash:" ++ p)
    (fun u p => String.eqb (IUser.password u) ("hash:" ++ p))
    (fun u _ => inr ("session:" ++ IUser.username u))
    fault false.

Definition healthy : call -> option error := fun _ => None.

Definition alice : IUser.t := IUser.mk "alice" "alice@example.org" "hash:wonderland".

(** never reported *)
Definition silent : IMachine.t :=
  IMachine.mk an_uuid other_uuid "silent.example.org" "token-silent" None None.
(** reported at the epoch itself *)
Definition epoch : IMachine.t :=
  IMachine.mk an_uuid other_uuid "epoch.example.org" "token-epoch" (Some Offline) (Some 0).
(** online, last heard of at 5 s *)
Definition quiet : IMachine.t :=
  IMachine.mk an_uuid other_uuid "quiet.example.org" "token-quiet" (Some Online) (Some 5000).
(** online, last heard of at 99 s *)
Definition lively : IMachine.t :=
  IMachine.mk an_uuid other_uuid "lively.example.org" "token-lively" (Some Online) (Some 99000).

(** offline, last heard of at 5 s *)
Definition dormant : IMachine.t :=
  IMachine.mk an_uuid other_uuid "dormant.example.org" "token-dormant" (Some Offline)
    (Some 5000).

Definition empty : Store := mkStore ∅ ∅ ∅ [].

Definition parked : Store := mkStore ∅ {[ 4%nat := dormant ]} ∅ [].

Definition relic : Store := mkStore ∅ {[ 7%nat := epoch ]} ∅ [].

Definition one_user : Store := mkStore {[ 1%nat := alice ]} ∅ ∅ [].

Definition fleet : Store :=
  mkStore {[ 1%nat := alice ]}
    (<[ 1%nat := silent ]> (<[ 2%nat := quiet ]> (<[ 3%nat := lively ]> ∅))) ∅ [].

(** the delete of document 1 fails *)
Definition delete_1_fails (c : call) : option error :=
  match c with
  | DocDelete 1 => Some (Error "connection lost")
  | _ => None
  end.

End Sample.


(** ** Notions used to state further properties *)

(** The documents of a collection. *)
Definition docs_of (c : collection) : Store -> gmap nat (document c) :=
  match c with
  | c_user => users
  | c_label => labels
  | c_machine => machines
  end.

(** The name [new_label] computes from the name of its input. *)
Definition label_name (name : string) : string := dash_spaces (toLowerCase name).

(** A storage layer none of whose calls fails. *)
Definition healthy (e : Env) : Prop := forall c, fault e c = None.

(** The staleness invariant of a machine at a time: it has reported, at
    most thirty days ago, and at most ten seconds ago if it is Online. *)
Definition live_at (now : Z) (m : IMachine.t) : Prop :=
  exists t,
    IMachine.last_update m = Some t
    /\ t <> 0
    /\ now - t <= thirty_days
    /\ (IMachine.status m = Some Online -> now - t <= ten_seconds).

(** A character of a host name: letter, digit, hyphen or dot. *)
Definition host_char (c : ascii) : bool :=
  is_alnum c || is_dash c || Ascii.eqb c "."%char.

(** A character string that holds host-name characters only and, unless
    empty, ends in a letter or digit. *)
Definition tidy_host (s : list ascii) : Prop :=
  forallb host_char s = true
  /\ (s <> [] -> forall d, is_alnum (List.last s d) = true).

(** What the name normalisation of [new_label] does to one character. *)
Definition label_char (c : ascii) : ascii :=
  if is_space (lower_char c) then "-"%char else lower_char c.

(** ** The signup route ([src/server/routes/signup.js]) *)

Module Signup.

(** [[a-zA-Z0-9!@#$%^&*()_+$]] *)
Definition password_class (c : ascii) : bool :=
  is_alnum c || existsb (Ascii.eqb c) (chars "!@#$%^&*()_+$").

(** [new RegExp("^[a-zA-Z0-9!@#$%^&*()_+$]{3,30}")], tested on a string:
    from its start, between 3 and 30 characters of the class; the
    expression has no anchor at its end. *)
Definition password_pattern (s : string) : bool :=
  existsb
    (fun k => (k <=? length (chars s))%nat && forallb password_class (firstn k (chars s)))
    (seq 3 28).

(** [password: Joi.string().pattern(...).required()] *)
Definition password (s : string) : bool := Joi.string_ s && password_pattern s.

(** [username: Joi.string().alphanum().min(3).max(30).required()] *)
Definition username (s : string) : bool :=
  Joi.string_ s && Joi.alphanum s && Joi.min 3 s && Joi.max 30 s.

End Signup.

(** ** More sample data *)

Module Cases.

(** A deployment whose session tokens cannot be signed. *)
Definition unsigned : Env :=
  mkEnv None 100000 (fun _ => Sample.an_uuid) "#a1b2c3" ["server"; "cloud"]
    (fun p => "hash:" ++ p)
    (fun u p => String.eqb (IUser.password u) ("hash:" ++ p))
    (fun _ _ => inl (Error "secretOrPrivateKey must have a value"))
    Sample.healthy false.

Definition carol : UserSignupInput.t :=
  UserSignupInput.mk "carol" "carol@example.com" "christmas".

Definition carol_stored : IUser.t :=
  IUser.mk "carol" "carol@example.com" "hash:christmas".

(** A deployment whose storage is down. *)
Definition offline : Env :=
  Sample.env None 100000 (fun _ => Some (Error "connection lost")).

(** A deployment whose driver sends a query that nobody awaits. *)
Definition eager : Env :=
  mkEnv None 100000 (fun _ => Sample.an_uuid) "#a1b2c3" ["server"; "cloud"]
    (fun p => "hash:" ++ p)
    (fun u p => String.eqb (IUser.password u) ("hash:" ++ p))
    (fun u _ => inr ("session:" ++ IUser.username u))
    Sample.healthy true.

Definition two_users : Store :=
  mkStore (<[ 1%nat := Sample.alice ]> {[ 2%nat := carol_stored ]}) ∅ ∅ [].

Definition node1_input : CreateMachineInput.t :=
  CreateMachineInput.mk Sample.an_uuid Sample.other_uuid "node1.example.org".

(** the machine [new_machine] makes of it *)
Definition node1 : IMachine.t :=
  IMachine.mk Sample.an_uuid Sample.other_uuid "node1.example.org"
    (generate_access_token (Sample.env None 100000 Sample.healthy)) None None.

End Cases.

(** ** The sweep with its writes in flight

    [machine.delete()] and [machine.save()] return at once, with a
    promise that is pending; the store carries the write out later, and
    the promise settles then.  The model of [cleanup_database] above lets
    each write settle where it is issued, which fixes what the store
    ends as.  The model below follows the calls more closely: a write
    that is issued stays in flight until a turn of the event loop
    settles it, in the order a scheduler chooses, and the sweep goes on
    only where the source awaits. *)

Module Async.

(** A write the sweep issues on a document. *)
Inductive request :=
| delete_doc (id : nat)
| save_doc (id : nat) (m : IMachine.t).

Definition target (r : request) : nat :=
  match r with
  | delete_doc id => id
  | save_doc id _ => id
  end.

(** The storage call, the entry of the journal and the effect on the
    store of a request: those of [machine_delete] and [machine_save]. *)
Definition call_of (r : request) : call :=
  match r with
  | delete_doc id => DocDelete id
  | save_doc id _ => DocSave id
  end.

Definition write_of (r : request) : write :=
  match r with
  | delete_doc id => DeleteMachine id
  | save_doc id m => SaveMachine id m
  end.

Definition effect (r : request) (st : Store) : Store :=
  match r with
  | delete_doc id => set_machines (delete id (machines st)) st
  | save_doc id m => set_machines (<[id:=m]> (machines st)) st
  end.

(** The store, the promises that are pending with their writes, the
    outcome of each promise that has settled, and the next promise. *)
Record World := mkWorld {
  store : Store;
  pending : list (nat * request);
  outcomes : gmap nat (promise unit);
  next : nat
}.

(** Nothing in flight. *)
Definition quiescent (st : Store) : World := mkWorld st [] ∅ 0.

(** How an asynchronous function stands: completed with a settled
    promise, or suspended at an [await]. *)
Inductive completion :=
| Completed (p : promise unit)
| Suspended.

Section Loop.

Variable e : Env.

(** The scheduler: of the promises that are pending, given in the order
    of issue, the position of the one that settles next. *)
Variable scheduler : list nat -> nat.

(** The call of a write method without [await]: the write is issued and
    its promise is pending. *)
Definition dispatch (r : request) (w : World) : nat * World :=
  (next w,
   mkWorld (issue (write_of r) (store w)) (pending w ++ [(next w, r)])%list
     (outcomes w) (S (next w))).

(** The store carries out, or fails, the write of the promise [t]; [rest]
    are the promises that stay pending. *)
Definition carry_out (t : nat * request) (rest : list (nat * request)) (w : World) : World :=
  match fault e (call_of t.2) with
  | Some err =>
      mkWorld (store w) rest (<[t.1 := Rejected (Thrown err)]> (outcomes w)) (next w)
  | None =>
      mkWorld (effect t.2 (store w)) rest (<[t.1 := Resolved tt]> (outcomes w)) (next w)
  end.

(** One turn of the event loop: the promise the scheduler points at
    settles (the oldest one if it points at none). *)
Definition turn (w : World) : World :=
  match pending w with
  | [] => w
  | t :: rest =>
      let i := scheduler (pending w).*1 in
      match pending w !! i with
      | Some t' => carry_out t' (delete i (pending w)) w
      | None => carry_out t rest w
      end
  end.

Definition is_settled (w : World) (p : nat) : bool :=
  match outcomes w !! p with
  | Some _ => true
  | None => false
  end.

(** The event loop turns until each of the promises has settled. *)
Fixpoint turn_until_settled (fuel : nat) (promises : list nat) (w : World) : World :=
  match fuel with
  | O => w
  | S fuel' =>
      if forallb (is_settled w) promises then w
      else turn_until_settled fuel' promises (turn w)
  end.

(** [await Promise.allSettled(promises)]: the caller goes on once every
    promise of the array has settled, with the outcome of each; [None]
    while one of them is pending. *)
Definition Promise_allSettled (promises : list nat) (w : World)
  : option (list (settled unit)) * World :=
  let w' := turn_until_settled (length (pending w)) promises w in
  (mapM (fun p => settle <$> outcomes w' !! p) promises, w').

(** The body of the loop over the machines. *)
Definition cleanup_machine (doc : nat * IMachine.t) (acc : list nat * World)
  : list nat * World :=
  let '(id, machine) := doc in
  let '(promises, w) := acc in
  if negb (truthy_num (IMachine.last_update machine))
     || js_lt (IMachine.last_update machine) (now e - thirty_days)
  then
    let '(p, w') := dispatch (delete_doc id) w in
    ((promises ++ [p])%list, w')
  else if status_eqb (IMachine.status machine) Online
          && js_lt (IMachine.last_update machine) (now e - ten_seconds)
  then
    let machine := IMachine.set_status Offline machine in
    let '(p, w') := dispatch (save_doc id machine) w in
    ((promises ++ [p])%list, w')
  else (promises, w).

Definition cleanup_database (st : Store) : completion * World :=
  if truthy_str (SHARD_ID e) && strict_neq (SHARD_ID e) "1"
  then (Completed (Resolved tt), quiescent st)
  else
    match machines_find e (fun _ => true) st with
    | (Rejected r, st') => (Completed (Rejected r), quiescent st')
    | (Resolved machines, st') =>
        let '(promises, w) :=
          fold_left (fun acc doc => cleanup_machine doc acc) machines ([], quiescent st') in
        match Promise_allSettled promises w with
        | (Some _, w') => (Completed (Resolved tt), w')
        | (None, w') => (Suspended, w')
        end
    end.

End Loop.

(** The write the liveness rule plans for a document. *)
Definition plan (now : Z) (doc : nat * IMachine.t) : option request :=
  match reap_check now doc.2 with
  | Evict => Some (delete_doc doc.1)
  | Demote => Some (save_doc doc.1 (IMachine.set_status Offline doc.2))
  | NoTransition => None
  end.

(** What holds of the promises and the world while the loop over the
    documents [seen] so far issues the writes, from the store [st]. *)
Definition issuing (now : Z) (st : Store) (seen : list (nat * IMachine.t))
    (promises : list nat) (w : World) : Prop :=
  promises = (pending w).*1
  /\ (pending w).*2 = omap (plan now) seen
  /\ Forall (fun p => (p < next w)%nat) promises
  /\ NoDup promises
  /\ outcomes w = ∅
  /\ users (store w) = users st
  /\ machines (store w) = machines st
  /\ labels (store w) = labels st
  /\ journal (store w) = (journal st ++ (write_of <$> omap (plan now) seen))%list.

(** What the store holds under an id once the write on it has settled. *)
Definition final (e : Env) (st : Store) (k : nat) : option IMachine.t :=
  match machines st !! k with
  | Some m => reap_result e k m (reap_check (now e) m)
  | None => None
  end.

(** What holds of the world while the writes of the sweep of the store
    [st] settle: each write still in flight is the planned one, on a
    document nothing has touched yet, and every other document is as its
    own write left it. *)
Definition settling (e : Env) (st : Store) (promises : list nat) (w : World) : Prop :=
  NoDup (pending w).*1
  /\ NoDup (target <$> (pending w).*2)
  /\ (forall p r, (p, r) ∈ pending w ->
        p ∈ promises
        /\ outcomes w !! p = None
        /\ exists m,
            machines st !! target r = Some m
            /\ plan (now e) (target r, m) = Some r
            /\ machines (store w) !! target r = Some m)
  /\ (forall k, k ∉ target <$> (pending w).*2 -> machines (store w) !! k = final e st k)
  /\ (forall p, p ∈ promises -> p ∈ (pending w).*1 \/ is_Some (outcomes w !! p))
  /\ (length (pending w) + size (outcomes w))%nat = length promises
  /\ users (store w) = users st
  /\ labels (store w) = labels st
  /\ journal (store w)
     = (journal st ++ sweep_writes (now e) (map_to_list (machines st)))%list.

(** Schedulers: the oldest pending promise first, and the youngest. *)
Definition oldest_first (pending : list nat) : nat := 0%nat.
Definition youngest_first (pending : list nat) : nat := (length pending - 1)%nat.

End Async.

(** * Properties *)

(** ** The validators on the cases of [tests/validators.test.ts] *)

Example test_valid_hex_colors :
  map Validators.validate_hex_color ["#000000"; "#fff"] = [true; true].
Proof. reflexivity. Qed.

Example test_invalid_hex_colors :
  map Validators.validate_hex_color ["#000000000"; "#fffff"; "#ff"; "#ffffff0"]
  = [false; false; false; false].
Proof. reflexivity. Qed.

Example test_valid_hostnames :
  map Validators.validate_hostname
    ["cdn.discordapp.com"; "media.discordapp.net"; "i.imgur.com";
     "783f7f2f32-j3fk.test.com"]
  = [true; true; true; true].
Proof. reflexivity. Qed.

Example test_invalid_hostnames :
  map Validators.validate_hostname
    ["your mom"; "@%@%783f7f2f32j3fk"; ""; " "; "-oaiwndoaiwnd.com"]
  = [false; false; false; false; false].
Proof. reflexivity. Qed.

Example test_valid_uuids :
  map Validators.validate_uuid ["8bb3cf50-077a-4586-8567-58f596504a0e"] = [true].
Proof. reflexivity. Qed.

Example test_invalid_uuids :
  map Validators.validate_uuid
    ["8bb3cf50-077a-4586-58f596504a0e"; "546789098765adbhja2jdnkj2"; ""; "124124"]
  = [false; false; false; false].
Proof. reflexivity. Qed.

(** ** Storage calls *)

Ltac unfold_M := unfold mbind, M_bind, mret, M_ret, dispatch, reject, throw, reject_with.

Lemma query_ok {A} e c (read : Store -> A) st :
  fault e c = None -> query e c read st = (Resolved (read st), st).
Proof. intros H. unfold query. now rewrite H. Qed.

Lemma command_ok e c w apply st :
  fault e c = None -> command e c w apply st = (Resolved tt, apply (issue w st)).
Proof. intros H. unfold command. now rewrite H. Qed.

Lemma command_journal e c w apply st :
  (forall s, journal (apply s) = journal s) ->
  journal (command e c w apply st).2 = (journal st ++ [w])%list.
Proof.
  intros Happly. unfold command.
  destruct (fault e c); simpl; [reflexivity | now rewrite Happly].
Qed.

Lemma first_match_Some {A} (filter : A -> bool) (docs : gmap nat A) id d :
  first_match filter docs = Some (id, d) -> docs !! id = Some d /\ filter d = true.
Proof.
  unfold first_match. intros H. apply List.find_some in H as [Hin Hf].
  split; [| exact Hf].
  apply elem_of_map_to_list, list_elem_of_In, Hin.
Qed.

Lemma first_match_None {A} (filter : A -> bool) (docs : gmap nat A) id d :
  first_match filter docs = None -> docs !! id = Some d -> filter d = false.
Proof.
  unfold first_match. intros H Hd.
  apply (List.find_none _ _ H (id, d)).
  apply list_elem_of_In, elem_of_map_to_list, Hd.
Qed.

Lemma filter_all {A} (l : list A) : List.filter (fun _ => true) l = l.
Proof. induction l as [| x l IH]; simpl; [reflexivity | now rewrite IH]. Qed.

(** ** One machine of the sweep *)

Lemma stale_iff (t now limit : Z) : (t <? now - limit) = (now - t >? limit).
Proof.
  rewrite Z.gtb_ltb.
  destruct (Z.ltb_spec t (now - limit)), (Z.ltb_spec limit (now - t)); lia || reflexivity.
Qed.

(** The loop body takes the branch [reap_check] names. *)
Lemma cleanup_machine_branch e id m ps st :
  cleanup_machine e (id, m) ps st =
  match reap_check (now e) m with
  | Evict =>
      ((Resolved (ps ++ [(machine_delete e id st).1])%list), (machine_delete e id st).2)
  | Demote =>
      let m' := IMachine.set_status Offline m in
      ((Resolved (ps ++ [(machine_save e id m' st).1])%list), (machine_save e id m' st).2)
  | NoTransition => (Resolved ps, st)
  end.
Proof.
  unfold cleanup_machine, reap_check.
  destruct (IMachine.last_update m) as [t |]; simpl.
  - rewrite !stale_iff.
    destruct (t =? 0); simpl.
    + unfold_M. now destruct (machine_delete e id st).
    + destruct (now e - t >? thirty_days); simpl.
      * unfold_M. now destruct (machine_delete e id st).
      * destruct (status_eqb (IMachine.status m) Online && (now e - t >? ten_seconds)).
        -- unfold_M. now destruct (machine_save e id _ st).
        -- reflexivity.
  - unfold_M. now destruct (machine_delete e id st).
Qed.

Lemma cleanup_machine_resolves e d ps st :
  exists ps', (cleanup_machine e d ps st).1 = Resolved ps'.
Proof.
  destruct d as [id m]. rewrite cleanup_machine_branch.
  destruct (reap_check (now e) m); simpl; eauto.
Qed.

Lemma cleanup_machine_journal e id m ps st :
  journal (cleanup_machine e (id, m) ps st).2
  = (journal st ++ reap_writes id m (reap_check (now e) m))%list.
Proof.
  rewrite cleanup_machine_branch.
  destruct (reap_check (now e) m); simpl.
  - unfold machine_delete. now rewrite command_journal.
  - unfold machine_save. now rewrite command_journal.
  - now rewrite app_nil_r.
Qed.

Lemma cleanup_machine_frame e id m ps st :
  users (cleanup_machine e (id, m) ps st).2 = users st
  /\ labels (cleanup_machine e (id, m) ps st).2 = labels st.
Proof.
  rewrite cleanup_machine_branch.
  destruct (reap_check (now e) m); simpl; [| | easy];
    unfold machine_delete, machine_save, command;
    now destruct (fault e _).
Qed.

Lemma cleanup_machine_lookup e id m ps st k :
  machines st !! id = Some m ->
  machines (cleanup_machine e (id, m) ps st).2 !! k
  = if decide (k = id) then reap_result e id m (reap_check (now e) m)
    else machines st !! k.
Proof.
  intros Hm. rewrite cleanup_machine_branch.
  destruct (reap_check (now e) m); simpl;
    unfold machine_delete, machine_save, command;
    try destruct (fault e _); simpl;
    destruct (decide (k = id)) as [-> |]; try easy.
  - apply lookup_delete_eq.
  - now apply lookup_delete_ne.
  - apply lookup_insert_eq.
  - now apply lookup_insert_ne.
Qed.

(** ** The loop over the fleet *)

Lemma for_of_cons {A B} (x : A) xs (body : A -> B -> M B) acc st :
  for_of (x :: xs) body acc st =
  match body x acc st with
  | (Resolved acc', st') => for_of xs body acc' st'
  | (Rejected r, st') => (Rejected r, st')
  end.
Proof. reflexivity. Qed.

Lemma read_from_map_to_list st : read_from (map_to_list (machines st)) st.
Proof.
  split; [apply NoDup_fst_map_to_list |].
  intros id m. apply elem_of_map_to_list.
Qed.

Lemma for_of_cleanup e docs :
  forall ps st,
    read_from docs st ->
    exists ps' st',
      for_of docs (cleanup_machine e) ps st = (Resolved ps', st')
      /\ users st' = users st
      /\ labels st' = labels st
      /\ journal st' = (journal st ++ sweep_writes (now e) docs)%list
      /\ forall k,
          machines st' !! k =
          match (list_to_map docs : gmap nat IMachine.t) !! k with
          | Some m => reap_result e k m (reap_check (now e) m)
          | None => machines st !! k
          end.
Proof.
  induction docs as [| [id m] docs IH]; intros ps st [Hnd Hread].
  - exists ps, st. simpl. unfold sweep_writes. simpl. rewrite app_nil_r.
    repeat split.
  - rewrite for_of_cons.
    destruct (cleanup_machine_resolves e (id, m) ps st) as [ps1 Hps1].
    pose proof (cleanup_machine_journal e id m ps st) as Hj.
    pose proof (cleanup_machine_frame e id m ps st) as [Hu Hl].
    assert (Hm : machines st !! id = Some m) by (apply Hread; left).
    pose proof (cleanup_machine_lookup e id m ps st) as Hk.
    destruct (cleanup_machine e (id, m) ps st) as [p1 st1]. simpl in *. subst p1.
    apply NoDup_cons in Hnd as [Hfresh Hnd].
    destruct (IH ps1 st1) as (ps' & st' & Hrun & Hu' & Hl' & Hj' & Hk').
    { split; [exact Hnd |]. intros id' m' Hin.
      rewrite Hk by exact Hm. destruct (decide (id' = id)) as [-> |].
      - exfalso. apply Hfresh. apply list_elem_of_fmap. now exists (id, m').
      - apply Hread. now right. }
    exists ps', st'. repeat split.
    + exact Hrun.
    + congruence.
    + congruence.
    + rewrite Hj', Hj. unfold sweep_writes. simpl. now rewrite app_assoc.
    + intros k. rewrite Hk'. simpl.
      destruct (decide (k = id)) as [-> |].
      * rewrite lookup_insert_eq.
        rewrite (not_elem_of_list_to_map_1 _ _ Hfresh).
        rewrite Hk by exact Hm. now rewrite decide_True.
      * rewrite lookup_insert_ne by congruence.
        destruct (list_to_map docs !! k); [reflexivity |].
        rewrite Hk by exact Hm. now rewrite decide_False.
Qed.

(** The guard of the sweep reads the shard identifier as [shard_skips]. *)
Lemma shard_guard e :
  truthy_str (SHARD_ID e) && strict_neq (SHARD_ID e) "1" = shard_skips (SHARD_ID e).
Proof. unfold shard_skips. now destruct (SHARD_ID e). Qed.

(** A sweep that is not skipped and reads the fleet: it resolves, issues
    the writes of every machine, and leaves each machine as its own write
    settled. *)
Lemma cleanup_database_sweep e st :
  shard_skips (SHARD_ID e) = false ->
  fault e (Find c_machine) = None ->
  exists st',
    cleanup_database e st = (Resolved tt, st')
    /\ users st' = users st
    /\ labels st' = labels st
    /\ journal st' = (journal st ++ sweep_writes (now e) (map_to_list (machines st)))%list
    /\ forall k,
        machines st' !! k =
        match machines st !! k with
        | Some m => reap_result e k m (reap_check (now e) m)
        | None => None
        end.
Proof.
  intros Hshard Hfind. unfold cleanup_database. rewrite shard_guard, Hshard.
  unfold mbind at 1, M_bind at 1. unfold machines_find.
  rewrite (query_ok _ _ _ _ Hfind), filter_all.
  destruct (for_of_cleanup e (map_to_list (machines st)) [] st
              (read_from_map_to_list st))
    as (ps' & st' & Hrun & Hu & Hl & Hj & Hk).
  exists st'. unfold mbind at 1, M_bind at 1. rewrite Hrun.
  repeat split; try assumption.
  intros k. rewrite Hk, list_to_map_to_list.
  now destruct (machines st !! k).
Qed.

Lemma cleanup_database_skipped e st :
  shard_skips (SHARD_ID e) = true -> cleanup_database e st = (Resolved tt, st).
Proof.
  intros Hshard. unfold cleanup_database. now rewrite shard_guard, Hshard.
Qed.

(** ** The liveness rule of the reaper *)

(** Eviction goes first: a machine that is both older than thirty days
    and online past ten seconds gets the delete, and only the delete. *)
Lemma reap_check_eviction_first now m t :
  IMachine.last_update m = Some t ->
  now - t > thirty_days ->
  reap_check now m = Evict /\ reap_writes 0 m (reap_check now m) = [DeleteMachine 0].
Proof.
  intros Ht Hold. unfold reap_check. rewrite Ht.
  assert ((now - t >? thirty_days) = true) as -> by (apply Z.gtb_lt; lia).
  now rewrite orb_true_r.
Qed.

(** Where the rule of the loop and the rule of the specification part:
    only on the timestamp 0 read within thirty days of the epoch. *)
Lemma reap_check_agrees now m :
  (IMachine.last_update m = Some 0 -> thirty_days < now) ->
  reap_check now m = reap_check_spec now m.
Proof.
  unfold reap_check, reap_check_spec. intros Hclock.
  destruct (IMachine.last_update m) as [t |]; [| reflexivity].
  destruct (Z.eqb_spec t 0) as [-> |]; simpl; [| reflexivity].
  assert ((now - 0 >? thirty_days) = true) as ->; [| reflexivity].
  apply Z.gtb_lt. specialize (Hclock eq_refl). lia.
Qed.

(** What one pass of the loop body does, by the rule of the loop. *)
Lemma cleanup_machine_pass e id m ps st :
  exists ps' st',
    cleanup_machine e (id, m) ps st = (Resolved ps', st')
    /\ journal st' = (journal st ++ reap_writes id m (reap_check (now e) m))%list
    /\ length ps' = (length ps + length (reap_writes id m (reap_check (now e) m)))%nat.
Proof.
  pose proof (cleanup_machine_journal e id m ps st) as Hj.
  assert (Hlen : exists ps', (cleanup_machine e (id, m) ps st).1 = Resolved ps'
                 /\ length ps' = (length ps + length (reap_writes id m (reap_check (now e) m)))%nat).
  { rewrite cleanup_machine_branch.
    destruct (reap_check (now e) m); simpl; eexists; split; try reflexivity;
      rewrite ?length_app; simpl; lia. }
  destruct Hlen as (ps' & Hps' & Hlen).
  destruct (cleanup_machine e (id, m) ps st) as [p st']. simpl in *. subst p.
  exists ps', st'. repeat split; assumption.
Qed.

(** C2: for every machine and every sweep time - a machine whose
    [last_update] is the timestamp 0 being swept more than thirty days
    after the epoch, as every clock set later than January 1970 has it -
    one pass of the loop body issues exactly the writes of the rule of
    the specification: the delete when [last_update] is undefined or
    more than thirty days old, whatever the status; else the save of the
    machine with status Offline when it is Online and more than ten
    seconds old; else no write.  It adds one promise per write, never
    rejects, and issues the delete alone when both conditions hold. *)
Theorem cleanup_machine_follows_reap_check_spec e id m ps st :
  (IMachine.last_update m = Some 0 -> thirty_days < now e) ->
  exists ps' st',
    cleanup_machine e (id, m) ps st = (Resolved ps', st')
    /\ journal st' = (journal st ++ reap_writes id m (reap_check_spec (now e) m))%list
    /\ length ps'
       = (length ps + length (reap_writes id m (reap_check_spec (now e) m)))%nat
    /\ (forall t, IMachine.last_update m = Some t -> now e - t > thirty_days ->
        reap_writes id m (reap_check_spec (now e) m) = [DeleteMachine id]).
Proof.
  intros Hclock. rewrite <- (reap_check_agrees (now e) m Hclock).
  destruct (cleanup_machine_pass e id m ps st) as (ps' & st' & Hrun & Hj & Hlen).
  exists ps', st'. repeat split; try assumption.
  intros t Ht Hold.
  destruct (reap_check_eviction_first (now e) m t Ht Hold) as [-> _]. reflexivity.
Qed.

Lemma cleanup_machine_follows_reap_check_spec_witness :
  exists ps' st',
    cleanup_machine (Sample.env None 1700000000000 Sample.healthy) (7%nat, Sample.epoch) []
      Sample.relic = (Resolved ps', st')
    /\ journal st' = [DeleteMachine 7]
    /\ length ps' = 1%nat.
Proof.
  destruct (cleanup_machine_follows_reap_check_spec
              (Sample.env None 1700000000000 Sample.healthy) 7%nat Sample.epoch []
              Sample.relic)
    as (ps' & st' & Hrun & Hj & Hlen & _).
  - intros _. reflexivity.
  - exists ps', st'. repeat split; assumption.
Defined.

(** The condition on the clock cannot be dropped: one second after the
    epoch the loop deletes a machine whose [last_update] is the
    timestamp 0, for [!machine.last_update] holds of 0 as it does of
    [undefined], where the rule of the specification has no write. *)
Example cleanup_database_evicts_timestamp_zero :
  machines (cleanup_database (Sample.env None 1000 Sample.healthy) Sample.relic).2 !! 7%nat
  = None
  /\ reap_writes 7 Sample.epoch (reap_check_spec 1000 Sample.epoch) = [].
Proof. split; reflexivity. Qed.

(** The rule on the scenarios of the specification: a machine that never
    reported is evicted; fifteen seconds of silence demote an online
    machine; five seconds do not. *)
Example reap_check_scenarios :
  reap_check 1000 Sample.silent = Evict
  /\ reap_check 20000 Sample.quiet = Demote
  /\ reap_check 10000 Sample.quiet = NoTransition
  /\ reap_check (5000 + thirty_days + 1) Sample.quiet = Evict.
Proof. repeat split. Qed.

(** ** The shard guard *)

(** C5, as the specification states it, fails for the shard identifier
    set to the empty string: it is a value other than 1, yet the guard
    tests its truthiness first, so the sweep runs and issues writes. *)
Lemma shard_guard_runs_on_empty_identifier :
  shard_skips_spec (SHARD_ID (Sample.env (Some "") 100000 Sample.healthy)) = true
  /\ journal (cleanup_database (Sample.env (Some "") 100000 Sample.healthy) Sample.fleet).2
     <> journal Sample.fleet.
Proof. split; [reflexivity |]. vm_compute. discriminate. Qed.

(** C5, amended: for every fleet, a sweep with the shard identifier set
    to a non-empty value other than 1 resolves and leaves the store and
    the journal as they were (no delete, no save), whatever the machines;
    a sweep with the identifier unset, empty or 1 that reads the fleet
    issues exactly the deletes and saves the per-machine check computes. *)
Theorem cleanup_database_shard_guard e st :
  (shard_skips (SHARD_ID e) = true ->
   cleanup_database e st = (Resolved tt, st))
  /\ (shard_skips (SHARD_ID e) = false ->
      fault e (Find c_machine) = None ->
      (cleanup_database e st).1 = Resolved tt
      /\ journal (cleanup_database e st).2
         = (journal st ++ sweep_writes (now e) (map_to_list (machines st)))%list).
Proof.
  split.
  - apply cleanup_database_skipped.
  - intros Hshard Hfind.
    destruct (cleanup_database_sweep e st Hshard Hfind) as (st' & -> & _ & _ & Hj & _).
    now split.
Qed.

Lemma cleanup_database_shard_guard_witness :
  cleanup_database (Sample.env (Some "2") 100000 Sample.healthy) Sample.fleet
  = (Resolved tt, Sample.fleet)
  /\ journal (cleanup_database (Sample.env (Some "1") 100000 Sample.healthy) Sample.fleet).2
     = [SaveMachine 2 (IMachine.set_status Offline Sample.quiet); DeleteMachine 1].
Proof.
  split.
  - apply (proj1 (cleanup_database_shard_guard
                    (Sample.env (Some "2") 100000 Sample.healthy) Sample.fleet)).
    reflexivity.
  - apply (proj2 (cleanup_database_shard_guard
                    (Sample.env (Some "1") 100000 Sample.healthy) Sample.fleet));
      reflexivity.
Defined.

(** ** Logging a machine in *)

(** C3, as the specification states it, fails on the refresh of
    [last_update]: the machine [dormant] (Offline, last heard of at 5 s)
    logs in at 100 s and is stored Online with [last_update] still 5 s,
    not as the heartbeat transition of the specification leaves it. *)
Lemma login_machine_keeps_last_update :
  machines (login_machine (Sample.env None 100000 Sample.healthy) "token-dormant"
              Sample.parked).2 !! 4%nat
  <> Some (heartbeat_received_spec 100000 Sample.dormant).
Proof. vm_compute. discriminate. Qed.

(** C3, amended: for every access token that matches a stored machine,
    [login_machine] sets the status of that machine to Online, leaves
    its [last_update] as it was, and saves it under its id; for every
    access token that matches no machine it rejects with the
    invalid-token message and leaves the store and the journal alone. *)
Theorem login_machine_sets_online e access_token st :
  fault e (FindOne c_machine) = None ->
  (forall id m,
      first_match (by_access_token access_token) (machines st) = Some (id, m) ->
      fault e (DocSave id) = None ->
      let m' := IMachine.set_status Online m in
      machines st !! id = Some m
      /\ IMachine.access_token m = access_token
      /\ IMachine.status m' = Some Online
      /\ IMachine.last_update m' = IMachine.last_update m
      /\ login_machine e access_token st
         = (Resolved (id, m'),
            set_machines (<[id:=m']> (machines st)) (issue (SaveMachine id m') st)))
  /\ (first_match (by_access_token access_token) (machines st) = None ->
      login_machine e access_token st = (Rejected (Message "Invalid access token"), st)
      /\ forall id m, machines st !! id = Some m -> IMachine.access_token m <> access_token).
Proof.
  intros Hfind. split.
  - intros id m Hmatch Hsave m'.
    destruct (first_match_Some _ _ _ _ Hmatch) as [Hm Htok].
    apply String.eqb_eq in Htok.
    repeat split; try assumption.
    unfold login_machine, machines_findOne. unfold mbind at 1, M_bind at 1.
    rewrite (query_ok _ _ _ _ Hfind), Hmatch.
    unfold mbind, M_bind, machine_save.
    now rewrite (command_ok _ _ _ _ _ Hsave).
  - intros Hmatch. split.
    + unfold login_machine, machines_findOne. unfold mbind at 1, M_bind at 1.
      now rewrite (query_ok _ _ _ _ Hfind), Hmatch.
    + intros id m Hm Htok.
      pose proof (first_match_None _ _ _ _ Hmatch Hm) as Hno.
      unfold by_access_token in Hno. apply String.eqb_neq in Hno. contradiction.
Qed.

Lemma login_machine_sets_online_witness :
  login_machine (Sample.env None 100000 Sample.healthy) "token-dormant" Sample.parked
  = (Resolved (4%nat, IMachine.set_status Online Sample.dormant),
     set_machines (<[4%nat := IMachine.set_status Online Sample.dormant]>
                     (machines Sample.parked))
       (issue (SaveMachine 4 (IMachine.set_status Online Sample.dormant)) Sample.parked))
  /\ login_machine (Sample.env None 100000 Sample.healthy) "token-unknown" Sample.parked
     = (Rejected (Message "Invalid access token"), Sample.parked).
Proof.
  split.
  - apply (proj1 (login_machine_sets_online
                    (Sample.env None 100000 Sample.healthy) "token-dormant" Sample.parked
                    eq_refl) 4%nat Sample.dormant); reflexivity.
  - apply (proj2 (login_machine_sets_online
                    (Sample.env None 100000 Sample.healthy) "token-unknown" Sample.parked
                    eq_refl)); reflexivity.
Defined.

(** ** Registering a machine *)

Lemma fresh_id_free {A} (docs : gmap nat A) : docs !! fresh (dom docs) = None.
Proof. apply not_elem_of_dom, is_fresh. Qed.

(** C4, as the specification states it, fails on the owner check: with
    no user stored at all, so that no owner resolves, a registration with
    well-formed fields resolves and the machine is stored. *)
Lemma new_machine_accepts_unknown_owner :
  users Sample.empty = ∅
  /\ exists d,
      (new_machine (Sample.env None 100000 Sample.healthy)
         (CreateMachineInput.mk Sample.an_uuid Sample.other_uuid "node1.example.org")
         Sample.empty).1 = Resolved d
      /\ machines (new_machine (Sample.env None 100000 Sample.healthy)
           (CreateMachineInput.mk Sample.an_uuid Sample.other_uuid "node1.example.org")
           Sample.empty).2 !! d.1 = Some d.2.
Proof. split; [reflexivity |]. eexists. split; vm_compute; reflexivity. Qed.

(** C4, amended: [new_machine] rejects with the invalid-input message of
    the first malformed field among hardware_uuid, owner_uuid and
    hostname, without a write; it makes no check that the owner exists;
    whenever the three fields are well formed and the create goes through
    it mints the access token and stores the machine under a new id,
    whatever users the store holds. *)
Theorem new_machine_checks_formats e input st :
  let hardware_uuid := CreateMachineInput.hardware_uuid input in
  let owner_uuid := CreateMachineInput.owner_uuid input in
  let hostname := CreateMachineInput.hostname input in
  let m := IMachine.mk hardware_uuid owner_uuid hostname (generate_access_token e)
             None None in
  (Validators.validate_uuid hardware_uuid = false ->
   new_machine e input st = (Rejected (Message "invalid.hardware_uuid"), st))
  /\ (Validators.validate_uuid hardware_uuid = true ->
      Validators.validate_uuid owner_uuid = false ->
      new_machine e input st = (Rejected (Message "invalid.owner_uuid"), st))
  /\ (Validators.validate_uuid hardware_uuid = true ->
      Validators.validate_uuid owner_uuid = true ->
      Validators.validate_hostname hostname = false ->
      new_machine e input st = (Rejected (Message "invalid.hostname"), st))
  /\ (Validators.validate_uuid hardware_uuid = true ->
      Validators.validate_uuid owner_uuid = true ->
      Validators.validate_hostname hostname = true ->
      fault e (Create c_machine) = None ->
      exists id,
        machines st !! id = None
        /\ new_machine e input st
           = (Resolved (id, m),
              set_machines (<[id:=m]> (machines st)) (issue (CreateMachine m) st))).
Proof.
  intros hardware_uuid owner_uuid hostname m.
  unfold new_machine. fold hardware_uuid owner_uuid hostname.
  repeat split.
  - intros ->. reflexivity.
  - intros -> ->. reflexivity.
  - intros -> -> ->. reflexivity.
  - intros -> -> -> Hcreate. simpl.
    exists (fresh (dom (machines st))). split; [apply fresh_id_free |].
    unfold machines_create. now rewrite (command_ok _ _ _ _ _ Hcreate).
Qed.

Lemma new_machine_checks_formats_witness :
  new_machine (Sample.env None 100000 Sample.healthy)
    (CreateMachineInput.mk "124124" Sample.other_uuid "node1.example.org") Sample.one_user
  = (Rejected (Message "invalid.hardware_uuid"), Sample.one_user)
  /\ new_machine (Sample.env None 100000 Sample.healthy)
       (CreateMachineInput.mk Sample.an_uuid "" "node1.example.org") Sample.one_user
     = (Rejected (Message "invalid.owner_uuid"), Sample.one_user)
  /\ new_machine (Sample.env None 100000 Sample.healthy)
       (CreateMachineInput.mk Sample.an_uuid Sample.other_uuid "your mom") Sample.one_user
     = (Rejected (Message "invalid.hostname"), Sample.one_user)
  /\ exists id m,
      (new_machine (Sample.env None 100000 Sample.healthy)
         (CreateMachineInput.mk Sample.an_uuid Sample.other_uuid "node1.example.org")
         Sample.one_user).1 = Resolved (id, m).
Proof.
  split; [| split; [| split]].
  - apply (new_machine_checks_formats (Sample.env None 100000 Sample.healthy)
             (CreateMachineInput.mk "124124" Sample.other_uuid "node1.example.org")
             Sample.one_user).
    reflexivity.
  - apply (new_machine_checks_formats (Sample.env None 100000 Sample.healthy)
             (CreateMachineInput.mk Sample.an_uuid "" "node1.example.org")
             Sample.one_user); reflexivity.
  - apply (new_machine_checks_formats (Sample.env None 100000 Sample.healthy)
             (CreateMachineInput.mk Sample.an_uuid Sample.other_uuid "your mom")
             Sample.one_user); reflexivity.
  - destruct (new_machine_checks_formats (Sample.env None 100000 Sample.healthy)
                (CreateMachineInput.mk Sample.an_uuid Sample.other_uuid "node1.example.org")
                Sample.one_user) as (_ & _ & _ & Hok).
    destruct (Hok eq_refl eq_refl eq_refl eq_refl) as (id & _ & Hrun).
    eexists id, _. now rewrite Hrun.
Defined.

(** ** Credentials *)

Lemma find_user_found e filter st id u :
  fault e (FindOne c_user) = None ->
  first_match filter (users st) = Some (id, u) ->
  find_user e filter st = (Resolved (id, u), st).
Proof.
  intros Hfind Hmatch. unfold find_user, find_one, users_findOne.
  unfold mbind, M_bind. now rewrite (query_ok _ _ _ _ Hfind), Hmatch.
Qed.

Lemma find_user_not_found e filter st :
  fault e (FindOne c_user) = None ->
  first_match filter (users st) = None ->
  find_user e filter st = (Rejected (Message "user.notFound"), st).
Proof.
  intros Hfind Hmatch. unfold find_user, find_one, users_findOne.
  unfold mbind, M_bind. now rewrite (query_ok _ _ _ _ Hfind), Hmatch.
Qed.

(** C1 does not hold of the code: for well-formed credentials, a user
    name that is not stored is rejected by [find_one] with its own
    message before the credential check is reached, while a stored user
    name with a wrong password is rejected with the invalid-credentials
    message; the two rejections differ. *)
Theorem login_user_tells_unknown_username e st username username' password headers id u :
  Validators.validate_password password = true ->
  Validators.validate_username username = true ->
  Validators.validate_username username' = true ->
  fault e (FindOne c_user) = None ->
  first_match (by_username username) (users st) = None ->
  first_match (by_username username') (users st) = Some (id, u) ->
  compare_password e u password = false ->
  login_user e username password headers st = (Rejected (Message "user.notFound"), st)
  /\ login_user e username' password headers st
     = (Rejected (Message "invalid credentials"), st)
  /\ (login_user e username password headers st).1
     <> (login_user e username' password headers st).1.
Proof.
  intros Hpw Hname Hname' Hfind Hnone Hsome Hcmp.
  assert (H1 : login_user e username password headers st
               = (Rejected (Message "user.notFound"), st)).
  { unfold login_user. rewrite Hpw, Hname. simpl.
    unfold mbind, M_bind. now rewrite (find_user_not_found _ _ _ Hfind Hnone). }
  assert (H2 : login_user e username' password headers st
               = (Rejected (Message "invalid credentials"), st)).
  { unfold login_user. rewrite Hpw, Hname'. simpl.
    unfold mbind, M_bind. rewrite (find_user_found _ _ _ _ _ Hfind Hsome). simpl.
    now rewrite Hcmp. }
  rewrite H1, H2. repeat split. discriminate.
Qed.

Lemma login_user_tells_unknown_username_witness :
  login_user (Sample.env None 100000 Sample.healthy) "mallory" "letmein" [] Sample.one_user
  = (Rejected (Message "user.notFound"), Sample.one_user)
  /\ login_user (Sample.env None 100000 Sample.healthy) "alice" "letmein" [] Sample.one_user
     = (Rejected (Message "invalid credentials"), Sample.one_user).
Proof.
  destruct (login_user_tells_unknown_username
              (Sample.env None 100000 Sample.healthy) Sample.one_user
              "mallory" "alice" "letmein" [] 1%nat Sample.alice
              eq_refl eq_refl eq_refl eq_refl eq_refl eq_refl eq_refl)
    as (H1 & H2 & _).
  split; assumption.
Defined.

(** C9: for well-formed credentials and a stored user name, a failed
    password comparison makes [delete_user] resolve, with no error, no
    write and the store as it was; and a call with a password that is
    accepted settles to the same value, so the settled promise does not
    tell a refused deletion from a requested one. *)
Theorem delete_user_wrong_password_resolves e st username password id u :
  Validators.validate_password password = true ->
  Validators.validate_username username = true ->
  fault e (FindOne c_user) = None ->
  first_match (by_username username) (users st) = Some (id, u) ->
  compare_password e u password = false ->
  delete_user e username password st = (Resolved tt, st)
  /\ forall password',
      Validators.validate_password password' = true ->
      compare_password e u password' = true ->
      (delete_user e username password' st).1 = (delete_user e username password st).1.
Proof.
  intros Hpw Hname Hfind Hsome Hcmp.
  assert (H1 : delete_user e username password st = (Resolved tt, st)).
  { unfold delete_user. rewrite Hpw, Hname. simpl.
    unfold mbind, M_bind. rewrite (find_user_found _ _ _ _ _ Hfind Hsome). simpl.
    now rewrite Hcmp. }
  split; [exact H1 |].
  intros password' Hpw' Hcmp'. rewrite H1.
  unfold delete_user. rewrite Hpw', Hname. simpl.
  unfold mbind at 1, M_bind at 1. rewrite (find_user_found _ _ _ _ _ Hfind Hsome). simpl.
  rewrite Hcmp'. unfold unawaited.
  destruct (sends_unawaited e); [| reflexivity].
  unfold_M. now destruct (users_deleteOne e username st).
Qed.

Lemma delete_user_wrong_password_resolves_witness :
  delete_user (Sample.env None 100000 Sample.healthy) "alice" "letmein" Sample.one_user
  = (Resolved tt, Sample.one_user).
Proof.
  apply (delete_user_wrong_password_resolves
           (Sample.env None 100000 Sample.healthy) Sample.one_user
           "alice" "letmein" 1%nat Sample.alice); reflexivity.
Defined.

(** ** Signing up *)

(** C7: whenever the create of the user is rejected with an error,
    [new_user] rejects with the message user.exists if the error is the
    duplicate-key error (a [MongoServerError] with code 11000), and with
    the very error, unchanged, if it is any other. *)
Theorem new_user_translates_duplicate_key e form headers st err st' :
  users_create e form st = (Rejected (Thrown err), st') ->
  new_user e form headers st
  = (Rejected (if is_duplicate_key err then Message "user.exists" else Thrown err), st').
Proof.
  intros Hcreate. unfold new_user, try_catch.
  unfold mbind at 1, M_bind at 1. rewrite Hcreate.
  destruct err as [code | message]; simpl; [| reflexivity].
  now destruct (code =? 11000).
Qed.

Lemma new_user_translates_duplicate_key_witness :
  (new_user (Sample.env None 100000 Sample.healthy)
     (UserSignupInput.mk "alice" "alice@example.com" "rabbit-hole") [] Sample.one_user).1
  = Rejected (Message "user.exists").
Proof.
  rewrite (new_user_translates_duplicate_key
             (Sample.env None 100000 Sample.healthy)
             (UserSignupInput.mk "alice" "alice@example.com" "rabbit-hole") []
             Sample.one_user (MongoServerError 11000)
             (issue (CreateUser (IUser.mk "alice" "alice@example.com" "hash:rabbit-hole"))
                Sample.one_user) eq_refl).
  reflexivity.
Defined.

(** Other errors of the create pass through: a lost connection, and a
    server error with another code. *)
Example new_user_propagates_other_errors :
  (new_user (Sample.env None 100000 (fun _ => Some (Error "connection lost")))
     (UserSignupInput.mk "bob" "bob@example.com" "builder") [] Sample.one_user).1
  = Rejected (Thrown (Error "connection lost"))
  /\ (new_user (Sample.env None 100000 (fun _ => Some (MongoServerError 121)))
        (UserSignupInput.mk "bob" "bob@example.com" "builder") [] Sample.one_user).1
     = Rejected (Thrown (MongoServerError 121)).
Proof. split; reflexivity. Qed.

(** Signing the same user name up twice: the second call is rejected
    with user.exists. *)
Example new_user_twice :
  let e := Sample.env None 100000 Sample.healthy in
  let form := UserSignupInput.mk "carol" "carol@example.com" "christmas" in
  (new_user e form [] Sample.empty).1
  = Resolved (IUser.mk "carol" "carol@example.com" "hash:christmas", "session:carol")
  /\ (new_user e form [] (new_user e form [] Sample.empty).2).1
     = Rejected (Message "user.exists").
Proof. split; vm_compute; reflexivity. Qed.

(** ** Labels *)

Lemma or_else_valid_color (color : option string) (random : string) :
  (forall c, color = Some c -> Validators.validate_hex_color c = true) ->
  Validators.validate_hex_color random = true ->
  Validators.validate_hex_color (or_else color random) = true.
Proof.
  intros Hc Hr. unfold or_else. destruct color as [c |]; [| exact Hr].
  destruct (String.eqb c ""); [exact Hr | now apply Hc].
Qed.

Lemma skipped_when_valid (check : string -> bool) (field : option string) :
  (forall x, field = Some x -> check x = true) ->
  truthy_str field && negb (check (default "" field)) = false.
Proof.
  intros H. destruct field as [x |]; [| reflexivity].
  simpl. rewrite (H x eq_refl). apply andb_false_r.
Qed.

(** C10: for every input whose name is the empty string, with a
    well-formed owner_uuid and with color, icon and description each
    valid or absent (the color drawn for an absent one being valid), the
    name check is skipped: the empty name does not pass
    [validate_label_name], yet [new_label] does not reject and, the
    create going through, stores a label whose name is the empty string. *)
Theorem new_label_accepts_empty_name e input st :
  ICreateLabelInput.name input = "" ->
  Validators.validate_uuid (ICreateLabelInput.owner_uuid input) = true ->
  (forall c, ICreateLabelInput.color input = Some c ->
             Validators.validate_hex_color c = true) ->
  Validators.validate_hex_color (randomHexColor e) = true ->
  (forall i, ICreateLabelInput.icon input = Some i ->
             Validators.validate_label_icon (LABEL_ICONS e) i = true) ->
  (forall d, ICreateLabelInput.description input = Some d ->
             Validators.validate_label_description d = true) ->
  fault e (Create c_label) = None ->
  Validators.validate_label_name "" = false
  /\ exists id l,
      labels st !! id = None
      /\ ILabel.name l = ""
      /\ new_label e input st
         = (Resolved (id, l),
            set_labels (<[id:=l]> (labels st)) (issue (CreateLabel l) st)).
Proof.
  intros Hname Howner Hcolor Hrandom Hicon Hdescription Hcreate.
  split; [reflexivity |].
  exists (fresh (dom (labels st))).
  exists (ILabel.mk (ICreateLabelInput.owner_uuid input) ""
            (or_else (ICreateLabelInput.color input) (randomHexColor e))
            (ICreateLabelInput.description input) (ICreateLabelInput.icon input)).
  split; [apply fresh_id_free |]. split; [reflexivity |].
  unfold new_label. rewrite Hname, Howner. simpl.
  rewrite (or_else_valid_color _ _ Hcolor Hrandom), andb_false_r.
  rewrite (skipped_when_valid _ _ Hicon), (skipped_when_valid _ _ Hdescription).
  unfold labels_create. now rewrite (command_ok _ _ _ _ _ Hcreate).
Qed.

Lemma new_label_accepts_empty_name_witness :
  exists id l,
    ILabel.name l = ""
    /\ (new_label (Sample.env None 100000 Sample.healthy)
          (ICreateLabelInput.mk Sample.an_uuid "" None (Some "cloud") None)
          Sample.empty).1 = Resolved (id, l).
Proof.
  destruct (new_label_accepts_empty_name
              (Sample.env None 100000 Sample.healthy)
              (ICreateLabelInput.mk Sample.an_uuid "" None (Some "cloud") None)
              Sample.empty eq_refl eq_refl)
    as (_ & id & l & _ & Hl & Hrun).
  - discriminate.
  - reflexivity.
  - intros i Hi. injection Hi as <-. reflexivity.
  - discriminate.
  - reflexivity.
  - exists id, l. split; [exact Hl | now rewrite Hrun].
Defined.

(** A name of two characters, which is not empty, is checked and refused. *)
Example new_label_rejects_short_name :
  new_label (Sample.env None 100000 Sample.healthy)
    (ICreateLabelInput.mk Sample.an_uuid "ab" None None None) Sample.empty
  = (Rejected (Message "invalid.label.name"), Sample.empty).
Proof. reflexivity. Qed.

(** ** Access tokens *)

Lemma chars_app (a b : string) : chars (a ++ b) = (chars a ++ chars b)%list.
Proof. induction a as [| c a IH]; simpl; [reflexivity | now rewrite IH]. Qed.

Lemma string_of_chars_app (l1 l2 : list ascii) :
  string_of_list_ascii (l1 ++ l2)
  = string_of_list_ascii l1 ++ string_of_list_ascii l2.
Proof. induction l1 as [| c l1 IH]; simpl; [reflexivity | now rewrite IH]. Qed.

Lemma length_string_of_chars (l : list ascii) :
  String.length (string_of_list_ascii l) = length l.
Proof. induction l as [| c l IH]; simpl; [reflexivity | now rewrite IH]. Qed.

Lemma strip_dashes_app (a b : string) :
  strip_dashes (a ++ b) = strip_dashes a ++ strip_dashes b.
Proof.
  unfold strip_dashes. now rewrite chars_app, List.filter_app, string_of_chars_app.
Qed.

Lemma hex_not_dash c : is_hex c = true -> is_dash c = false.
Proof.
  unfold is_hex, is_digit, is_dash, between. intros H.
  apply N.eqb_neq. intros Heq. rewrite Heq in H. discriminate H.
Qed.

Lemma strip_fits shape : forall s,
  fits shape s = true ->
  length (List.filter (fun c => negb (is_dash c)) s) = hex_slots shape
  /\ forallb is_hex (List.filter (fun c => negb (is_dash c)) s) = true.
Proof.
  induction shape as [| [|] shape IH]; intros [| c s] Hfits; simpl in Hfits;
    try discriminate.
  - split; reflexivity.
  - apply andb_true_iff in Hfits as [Hc Hs]. destruct (IH s Hs) as [Hlen Hall].
    simpl. rewrite (hex_not_dash c Hc). simpl. rewrite Hc, Hall.
    split; [| reflexivity]. unfold hex_slots in *. simpl. now rewrite Hlen.
  - apply andb_true_iff in Hfits as [Hc Hs]. destruct (IH s Hs) as [Hlen Hall].
    simpl. rewrite Hc. simpl. split; assumption.
Qed.

(** A printed identifier without its dashes: 32 hexadecimal digits. *)
Lemma strip_canonical_uuid (u : string) :
  canonical_uuid u = true ->
  String.length (strip_dashes u) = 32%nat /\ all_hex (strip_dashes u) = true.
Proof.
  intros Hu. destruct (strip_fits uuid_shape (chars u) Hu) as [Hlen Hall].
  unfold strip_dashes, all_hex, chars.
  rewrite length_string_of_chars, list_ascii_of_string_of_list_ascii.
  split; assumption.
Qed.

Lemma all_hex_app (a b : string) :
  all_hex a = true -> all_hex b = true -> all_hex (a ++ b) = true.
Proof.
  unfold all_hex. intros Ha Hb. rewrite chars_app, forallb_app. now rewrite Ha, Hb.
Qed.

Lemma length_string_app (a b : string) :
  String.length (a ++ b) = (String.length a + String.length b)%nat.
Proof. induction a as [| c a IH]; simpl; [reflexivity | now rewrite IH]. Qed.

(** C8: whenever the four draws of the identifier generator are printed
    identifiers (8-4-4-4-12 hexadecimal digits, 128 bits each), the
    access token is the concatenation of the four with their dashes
    stripped, 32 digits from each: 128 characters, all hexadecimal. *)
Theorem generate_access_token_is_128_hex e :
  (forall k, (k < 4)%nat -> canonical_uuid (uuidv4 e k) = true) ->
  generate_access_token e
  = strip_dashes (uuidv4 e 0) ++ strip_dashes (uuidv4 e 1)
    ++ strip_dashes (uuidv4 e 2) ++ strip_dashes (uuidv4 e 3)
  /\ (forall k, (k < 4)%nat -> String.length (strip_dashes (uuidv4 e k)) = 32%nat)
  /\ String.length (generate_access_token e) = 128%nat
  /\ all_hex (generate_access_token e) = true.
Proof.
  intros Hdraws.
  assert (H0 := strip_canonical_uuid _ (Hdraws 0%nat ltac:(lia))).
  assert (H1 := strip_canonical_uuid _ (Hdraws 1%nat ltac:(lia))).
  assert (H2 := strip_canonical_uuid _ (Hdraws 2%nat ltac:(lia))).
  assert (H3 := strip_canonical_uuid _ (Hdraws 3%nat ltac:(lia))).
  destruct H0 as [L0 A0], H1 as [L1 A1], H2 as [L2 A2], H3 as [L3 A3].
  unfold generate_access_token. rewrite !strip_dashes_app.
  split; [reflexivity |]. split; [| split].
  - intros k Hk. apply strip_canonical_uuid, Hdraws, Hk.
  - rewrite !length_string_app, L0, L1, L2, L3. reflexivity.
  - repeat apply all_hex_app; assumption.
Qed.

Lemma generate_access_token_is_128_hex_witness :
  String.length (generate_access_token (Sample.env None 100000 Sample.healthy)) = 128%nat
  /\ all_hex (generate_access_token (Sample.env None 100000 Sample.healthy)) = true.
Proof.
  destruct (generate_access_token_is_128_hex (Sample.env None 100000 Sample.healthy))
    as (_ & _ & Hlen & Hhex).
  - intros k Hk. reflexivity.
  - split; assumption.
Defined.

Example generate_access_token_sample :
  generate_access_token (Sample.env None 100000 Sample.healthy)
  = "8bb3cf50077a4586856758f596504a0e8bb3cf50077a4586856758f596504a0e8bb3cf50077a4586856758f596504a0e8bb3cf50077a4586856758f596504a0e".
Proof. reflexivity. Qed.

(** * Further properties of the manager *)

(** ** Lookups *)

Lemma first_match_exists {A} (filter : A -> bool) (docs : gmap nat A) id d :
  docs !! id = Some d -> filter d = true ->
  exists id' d', first_match filter docs = Some (id', d').
Proof.
  intros Hd Hf. destruct (first_match filter docs) as [[id' d'] |] eqn:Hm; [eauto |].
  rewrite (first_match_None _ _ _ _ Hm Hd) in Hf. discriminate.
Qed.

Lemma first_match_unique {A} (filter : A -> bool) (docs : gmap nat A) id d :
  docs !! id = Some d -> filter d = true ->
  (forall k x, docs !! k = Some x -> filter x = true -> k = id) ->
  first_match filter docs = Some (id, d).
Proof.
  intros Hd Hf Huniq.
  destruct (first_match_exists filter docs id d Hd Hf) as (id' & d' & Hm).
  destruct (first_match_Some _ _ _ _ Hm) as [Hd' Hf'].
  pose proof (Huniq id' d' Hd' Hf') as ->. congruence.
Qed.

Lemma store_eta st : mkStore (users st) (machines st) (labels st) (journal st) = st.
Proof. now destruct st. Qed.

Lemma query_frame {A} e c (read : Store -> A) st : (query e c read st).2 = st.
Proof. unfold query. now destruct (fault e c). Qed.

Lemma or_reject_frame {A} (x : option A) msg st : (or_reject x msg st).2 = st.
Proof. now destruct x. Qed.

Lemma find_one_frame e c filter st : (find_one e c filter st).2 = st.
Proof.
  destruct c; simpl; unfold mbind, M_bind, users_findOne, labels_findOne, machines_findOne,
    query; destruct (fault e _); try reflexivity; apply or_reject_frame.
Qed.

Lemma find_frame e c filter st : (find e c filter st).2 = st.
Proof.
  destruct c; simpl; unfold mbind, M_bind, users_find, labels_find, machines_find,
    query; now destruct (fault e _).
Qed.

Lemma user_login_frame e u headers st : (user_login e u headers st).2 = st.
Proof. unfold user_login. now destruct (login e u headers). Qed.

(** X1: [login_user] resolves only with a user that is stored under the
    requested name and whose password comparison succeeded, with the
    token [user.login] signed, after both format checks passed; and it
    leaves the store as it was. *)
Theorem login_user_sound e username password headers st u token st' :
  login_user e username password headers st = (Resolved (u, token), st') ->
  st' = st
  /\ Validators.validate_password password = true
  /\ Validators.validate_username username = true
  /\ (exists id, users st !! id = Some u)
  /\ IUser.username u = username
  /\ compare_password e u password = true
  /\ login e u headers = inr token.
Proof.
  unfold login_user.
  destruct (Validators.validate_password password); simpl; [| discriminate].
  destruct (Validators.validate_username username); simpl; [| discriminate].
  unfold mbind at 1, M_bind at 1.
  pose proof (find_one_frame e c_user (by_username username) st) as Hframe.
  unfold find_user.
  destruct (find_one e c_user (by_username username) st) as [[[id u0] | r] st0] eqn:Hfind;
    simpl in Hframe; subst st0; [| discriminate].
  assert (Hstored : users st !! id = Some u0 /\ by_username username u0 = true).
  { simpl in Hfind. unfold mbind, M_bind, users_findOne, query in Hfind.
    destruct (fault e (FindOne c_user)); [discriminate |].
    destruct (first_match (by_username username) (users st)) as [[id' u'] |] eqn:Hm;
      [| discriminate].
    injection Hfind as -> ->. exact (first_match_Some _ _ _ _ Hm). }
  destruct Hstored as [Hu Hname]. simpl.
  destruct (compare_password e u0 password) eqn:Hcmp; [| discriminate].
  unfold mbind, M_bind, user_login.
  destruct (login e u0 headers) as [err | tok] eqn:Hlogin; [discriminate |].
  unfold mret, M_ret. intros H. injection H as <- <- <-.
  repeat split; try reflexivity; eauto.
  now apply String.eqb_eq.
Qed.

Lemma login_user_sound_witness :
  compare_password (Sample.env None 100000 Sample.healthy) Sample.alice "wonderland" = true
  /\ IUser.username Sample.alice = "alice".
Proof.
  destruct (login_user_sound (Sample.env None 100000 Sample.healthy)
              "alice" "wonderland" [] Sample.one_user Sample.alice "session:alice"
              Sample.one_user eq_refl)
    as (_ & _ & _ & _ & Hname & Hcmp & _).
  split; assumption.
Defined.

(** X2: [login_user], [find_one] and [find] only read: whatever they
    settle to, and whatever the faults, the collections and the journal
    are as before. *)
Theorem lookups_leave_the_store e st :
  (forall username password headers,
      (login_user e username password headers st).2 = st)
  /\ (forall c filter, (find_one e c filter st).2 = st)
  /\ (forall c filter, (find e c filter st).2 = st).
Proof.
  split; [| split; intros; [apply find_one_frame | apply find_frame]].
  intros username password headers. unfold login_user.
  destruct (Validators.validate_password password); simpl; [| reflexivity].
  destruct (Validators.validate_username username); simpl; [| reflexivity].
  unfold mbind at 1, M_bind at 1. unfold find_user.
  pose proof (find_one_frame e c_user (by_username username) st) as Hframe.
  destruct (find_one e c_user (by_username username) st) as [[[id u0] | r] st0];
    simpl in Hframe; subst st0; [| reflexivity].
  simpl. destruct (compare_password e u0 password); [| reflexivity].
  unfold mbind, M_bind.
  pose proof (user_login_frame e u0 headers st) as Hlogin.
  now destruct (user_login e u0 headers st) as [[tok | r] st1]; simpl in *; subst st1.
Qed.

(** ** Signing up, then logging in *)

Lemma duplicate_key_false form (us : gmap nat IUser.t) k x :
  duplicate_key form us = false ->
  us !! k = Some x ->
  IUser.username x <> UserSignupInput.username form.
Proof.
  unfold duplicate_key. intros Hdup Hx Heq.
  assert (Hex : existsb
                  (fun d : nat * IUser.t =>
                     String.eqb (IUser.username d.2) (UserSignupInput.username form)
                     || String.eqb (IUser.email d.2) (UserSignupInput.email form))
                  (map_to_list us) = true).
  { apply existsb_exists. exists (k, x). split.
    - apply list_elem_of_In, elem_of_map_to_list, Hx.
    - simpl. rewrite Heq, String.eqb_refl. reflexivity. }
  congruence.
Qed.

Lemma duplicate_key_true form (us : gmap nat IUser.t) k x :
  us !! k = Some x ->
  IUser.username x = UserSignupInput.username form ->
  duplicate_key form us = true.
Proof.
  intros Hx Heq. unfold duplicate_key. apply existsb_exists. exists (k, x). split.
  - apply list_elem_of_In, elem_of_map_to_list, Hx.
  - simpl. rewrite Heq, String.eqb_refl. reflexivity.
Qed.

Lemma users_create_resolved e form st id u st' :
  users_create e form st = (Resolved (id, u), st') ->
  fault e (Create c_user) = None
  /\ duplicate_key form (users st) = false
  /\ users st !! id = None
  /\ IUser.username u = UserSignupInput.username form
  /\ st' = set_users (<[id:=u]> (users st)) (issue (CreateUser u) st).
Proof.
  unfold users_create.
  destruct (fault e (Create c_user)); [discriminate |].
  destruct (duplicate_key form (users st)); [discriminate |].
  intros H. injection H as <- <- <-.
  repeat split. apply fresh_id_free.
Qed.

Lemma new_user_resolved e form headers st u token st' :
  new_user e form headers st = (Resolved (u, token), st') ->
  exists id,
    users_create e form st = (Resolved (id, u), st')
    /\ login e u headers = inr token.
Proof.
  unfold new_user, try_catch. unfold mbind at 1, M_bind at 1.
  destruct (users_create e form st) as [[[id u0] | r] st0] eqn:Hcreate.
  - unfold mbind, M_bind, user_login. simpl.
    destruct (login e u0 headers) as [err | tok] eqn:Hlogin.
    + unfold throw. destruct err as [code | msg]; [| discriminate].
      destruct (code =? 11000); discriminate.
    + unfold mret, M_ret. intros H. injection H as <- <- <-. eauto.
  - destruct r as [s | [code | msg]]; try discriminate.
    destruct (code =? 11000); discriminate.
Qed.

(** X3: a user who has signed up can log in: when [new_user] resolves,
    the name and the password pass the format checks of [login_user] and
    the schema's comparison accepts the password for the stored user,
    [login_user] with the same credentials resolves with that user. *)
Theorem new_user_then_login_user e form headers st u token st' :
  new_user e form headers st = (Resolved (u, token), st') ->
  fault e (FindOne c_user) = None ->
  Validators.validate_password (UserSignupInput.password form) = true ->
  Validators.validate_username (UserSignupInput.username form) = true ->
  compare_password e u (UserSignupInput.password form) = true ->
  login_user e (UserSignupInput.username form) (UserSignupInput.password form) headers st'
  = (Resolved (u, token), st').
Proof.
  intros Hnew Hfind Hpw Hname Hcmp.
  destruct (new_user_resolved _ _ _ _ _ _ _ Hnew) as (id & Hcreate & Hlogin).
  destruct (users_create_resolved _ _ _ _ _ _ Hcreate) as (_ & Hdup & Hfresh & Hu & ->).
  assert (Hmatch : first_match (by_username (UserSignupInput.username form))
                     (<[id:=u]> (users st)) = Some (id, u)).
  { apply first_match_unique.
    - apply lookup_insert_eq.
    - unfold by_username. now apply String.eqb_eq.
    - intros k x Hk Hx. destruct (decide (k = id)) as [-> | Hne]; [reflexivity |].
      rewrite lookup_insert_ne in Hk by congruence.
      apply String.eqb_eq in Hx.
      now destruct (duplicate_key_false _ _ _ _ Hdup Hk). }
  unfold login_user. rewrite Hpw, Hname. simpl.
  unfold mbind at 1, M_bind at 1.
  rewrite (find_user_found e _ _ id u Hfind) by exact Hmatch.
  simpl. rewrite Hcmp. unfold mbind, M_bind, user_login. now rewrite Hlogin.
Qed.

Lemma new_user_then_login_user_witness :
  exists st',
    login_user (Sample.env None 100000 Sample.healthy) "carol" "christmas" [] st'
    = (Resolved (Cases.carol_stored, "session:carol"), st').
Proof.
  eexists.
  apply (new_user_then_login_user (Sample.env None 100000 Sample.healthy)
           Cases.carol [] Sample.one_user Cases.carol_stored "session:carol");
    reflexivity.
Defined.

(** X4: when the user is created and the signing of the session token
    then throws, [new_user] rejects, yet the user stays stored: signing
    up again with the same form is rejected with user.exists. *)
Theorem new_user_keeps_user_when_login_throws e form headers st id u st1 err :
  users_create e form st = (Resolved (id, u), st1) ->
  login e u headers = inl err ->
  (exists r, new_user e form headers st = (Rejected r, st1))
  /\ users st1 !! id = Some u
  /\ forall headers',
      (new_user e form headers' st1).1 = Rejected (Message "user.exists").
Proof.
  intros Hcreate Hlogin.
  destruct (users_create_resolved _ _ _ _ _ _ Hcreate) as (Hfault & _ & _ & Hu & ->).
  split; [| split].
  - unfold new_user, try_catch. unfold mbind at 1, M_bind at 1. rewrite Hcreate.
    unfold mbind, M_bind, user_login. simpl. rewrite Hlogin. unfold throw.
    destruct err as [code | msg]; [destruct (code =? 11000) |]; eauto.
  - apply lookup_insert_eq.
  - intros headers'. unfold new_user, try_catch. unfold mbind at 1, M_bind at 1.
    unfold users_create. rewrite Hfault.
    rewrite (duplicate_key_true form _ id u); [reflexivity | apply lookup_insert_eq | exact Hu].
Qed.

Lemma new_user_keeps_user_when_login_throws_witness :
  (new_user Cases.unsigned Cases.carol []
     (new_user Cases.unsigned Cases.carol [] Sample.empty).2).1
  = Rejected (Message "user.exists").
Proof.
  destruct (new_user_keeps_user_when_login_throws Cases.unsigned Cases.carol []
              Sample.empty (fresh (dom (users Sample.empty))) Cases.carol_stored
              (set_users (<[fresh (dom (users Sample.empty)) := Cases.carol_stored]>
                            (users Sample.empty))
                 (issue (CreateUser Cases.carol_stored) Sample.empty))
              (Error "secretOrPrivateKey must have a value") eq_refl eq_refl)
    as ([r Hrun] & _ & Hretry).
  rewrite Hrun. apply Hretry.
Defined.

(** ** Deleting a user *)

(** The store [delete_user] leaves: as it was, or with the delete issued
    and, if the call went through, the first user of that name removed. *)
Lemma delete_user_store e username password st :
  (delete_user e username password st).2 = st
  \/ (delete_user e username password st).2 = issue (DeleteOneUser username) st
  \/ exists id u,
      first_match (by_username username) (users st) = Some (id, u)
      /\ (delete_user e username password st).2
         = set_users (delete id (users st)) (issue (DeleteOneUser username) st).
Proof.
  unfold delete_user.
  destruct (Validators.validate_password password); simpl; [| now left].
  destruct (Validators.validate_username username); simpl; [| now left].
  unfold mbind, M_bind. unfold find_user.
  pose proof (find_one_frame e c_user (by_username username) st) as Hframe.
  destruct (find_one e c_user (by_username username) st) as [[[id u0] | r] st0];
    simpl in Hframe; subst st0; [| now left].
  simpl. destruct (compare_password e u0 password); [| now left].
  unfold unawaited. destruct (sends_unawaited e); [| now left].
  unfold mbind, M_bind, dispatch, users_deleteOne, command.
  destruct (fault e (DeleteOne c_user)); simpl; [now right; left |].
  fold (by_username username).
  destruct (first_match (by_username username) (users st)) as [[id' u'] |] eqn:Hm;
    simpl; [| now right; left].
  right; right. eauto.
Qed.

(** X5: whatever its arguments, the faults and the outcome,
    [delete_user] leaves the machines and the labels alone, adds no
    user, and keeps every user stored under another name. *)
Theorem delete_user_spares_other_users e username password st :
  machines (delete_user e username password st).2 = machines st
  /\ labels (delete_user e username password st).2 = labels st
  /\ (forall k x, users (delete_user e username password st).2 !! k = Some x ->
                  users st !! k = Some x)
  /\ (forall k x, users st !! k = Some x -> IUser.username x <> username ->
                  users (delete_user e username password st).2 !! k = Some x).
Proof.
  destruct (delete_user_store e username password st)
    as [-> | [-> | (id & u & Hm & ->)]]; simpl; repeat split; try (intros; assumption).
  - intros k x Hk. destruct (decide (k = id)) as [-> |].
    + now rewrite lookup_delete_eq in Hk.
    + now rewrite lookup_delete_ne in Hk by congruence.
  - intros k x Hk Hne. destruct (first_match_Some _ _ _ _ Hm) as [Hu Hname].
    apply String.eqb_eq in Hname.
    rewrite lookup_delete_ne; [exact Hk |]. intros <-. congruence.
Qed.

Lemma delete_user_spares_other_users_witness :
  users (delete_user Cases.eager "carol" "christmas" Cases.two_users).2 !! 1%nat
  = Some Sample.alice
  /\ users (delete_user Cases.eager "carol" "christmas" Cases.two_users).2 !! 2%nat = None.
Proof.
  split; [| reflexivity].
  apply (delete_user_spares_other_users Cases.eager "carol" "christmas" Cases.two_users).
  - reflexivity.
  - discriminate.
Defined.

(** ** Machines: logging in *)

Lemma login_machine_found e access_token st id m :
  fault e (FindOne c_machine) = None ->
  first_match (by_access_token access_token) (machines st) = Some (id, m) ->
  fault e (DocSave id) = None ->
  login_machine e access_token st
  = (Resolved (id, IMachine.set_status Online m),
     set_machines (<[id:=IMachine.set_status Online m]> (machines st))
       (issue (SaveMachine id (IMachine.set_status Online m)) st)).
Proof.
  intros Hfind Hmatch Hsave.
  unfold login_machine, machines_findOne. unfold mbind at 1, M_bind at 1.
  rewrite (query_ok _ _ _ _ Hfind), Hmatch.
  unfold mbind, M_bind, machine_save. now rewrite (command_ok _ _ _ _ _ Hsave).
Qed.

(** The store [login_machine] leaves. *)
Lemma login_machine_store e access_token st :
  exists r st',
    login_machine e access_token st = (r, st')
    /\ (st' = st
        \/ exists id m,
            first_match (by_access_token access_token) (machines st) = Some (id, m)
            /\ (st' = issue (SaveMachine id (IMachine.set_status Online m)) st
                \/ st' = set_machines (<[id:=IMachine.set_status Online m]> (machines st))
                          (issue (SaveMachine id (IMachine.set_status Online m)) st))).
Proof.
  unfold login_machine, machines_findOne, query. unfold mbind at 1, M_bind at 1.
  destruct (fault e (FindOne c_machine)).
  { eexists _, _. split; [reflexivity | now left]. }
  destruct (first_match (by_access_token access_token) (machines st)) as [[id m] |] eqn:Hm.
  2:{ eexists _, _. split; [reflexivity | now left]. }
  unfold mbind, M_bind, machine_save, command.
  destruct (fault e (DocSave id)); eexists _, _; (split; [reflexivity |]);
    right; exists id, m; (split; [reflexivity |]); [now left | now right].
Qed.

(** X6: whatever the token, the faults and the outcome, [login_machine]
    leaves the users and the labels alone, and each machine either as it
    was or, if it carries the presented token, switched to Online with
    its other fields unchanged: it creates and removes no machine. *)
Theorem login_machine_touches_token_holder_only e access_token st :
  users (login_machine e access_token st).2 = users st
  /\ labels (login_machine e access_token st).2 = labels st
  /\ forall k,
      machines (login_machine e access_token st).2 !! k = machines st !! k
      \/ exists m,
          machines st !! k = Some m
          /\ IMachine.access_token m = access_token
          /\ machines (login_machine e access_token st).2 !! k
             = Some (IMachine.set_status Online m).
Proof.
  destruct (login_machine_store e access_token st)
    as (r & st' & -> & [-> | (id & m & Hm & [-> | ->])]);
    simpl; repeat split; try (intros; now left).
  intros k. destruct (first_match_Some _ _ _ _ Hm) as [Hstored Htok].
  apply String.eqb_eq in Htok.
  destruct (decide (k = id)) as [-> |].
  - right. exists m. rewrite lookup_insert_eq. easy.
  - left. now rewrite lookup_insert_ne by congruence.
Qed.

Lemma set_status_twice s s' m :
  IMachine.set_status s (IMachine.set_status s' m) = IMachine.set_status s m.
Proof. reflexivity. Qed.

(** X7: logging in is idempotent: when the token belongs to one machine
    only and the calls do not fail, a second [login_machine] with the
    same token resolves with the same machine and leaves the machines as
    the first one left them. *)
Theorem login_machine_idempotent e access_token st id m :
  fault e (FindOne c_machine) = None ->
  fault e (DocSave id) = None ->
  machines st !! id = Some m ->
  IMachine.access_token m = access_token ->
  (forall k x, machines st !! k = Some x -> IMachine.access_token x = access_token ->
               k = id) ->
  (login_machine e access_token (login_machine e access_token st).2).1
  = (login_machine e access_token st).1
  /\ machines (login_machine e access_token (login_machine e access_token st).2).2
     = machines (login_machine e access_token st).2.
Proof.
  intros Hfind Hsave Hm Htok Huniq.
  assert (Hfirst : first_match (by_access_token access_token) (machines st) = Some (id, m)).
  { apply first_match_unique; try assumption.
    - unfold by_access_token. now apply String.eqb_eq.
    - intros k x Hk Hx. apply String.eqb_eq in Hx. eauto. }
  rewrite (login_machine_found e _ st id m Hfind Hfirst Hsave).
  set (m' := IMachine.set_status Online m). simpl.
  assert (Hsecond : first_match (by_access_token access_token) (<[id:=m']> (machines st))
                    = Some (id, m')).
  { apply first_match_unique.
    - apply lookup_insert_eq.
    - unfold by_access_token. simpl. now apply String.eqb_eq.
    - intros k x Hk Hx. destruct (decide (k = id)) as [-> |]; [reflexivity |].
      rewrite lookup_insert_ne in Hk by congruence.
      apply String.eqb_eq in Hx. eauto. }
  rewrite (login_machine_found e access_token
             (set_machines (<[id:=m']> (machines st)) (issue (SaveMachine id m') st))
             id m' Hfind Hsecond Hsave).
  simpl. split; [reflexivity |]. apply insert_insert_eq.
Qed.

Lemma login_machine_idempotent_witness :
  machines (login_machine (Sample.env None 100000 Sample.healthy) "token-quiet"
              (login_machine (Sample.env None 100000 Sample.healthy) "token-quiet"
                 Sample.fleet).2).2
  = machines (login_machine (Sample.env None 100000 Sample.healthy) "token-quiet"
                Sample.fleet).2.
Proof.
  apply (login_machine_idempotent (Sample.env None 100000 Sample.healthy) "token-quiet"
           Sample.fleet 2%nat Sample.quiet eq_refl eq_refl eq_refl eq_refl).
  intros k x Hk Hx.
  destruct (decide (k = 2%nat)) as [-> |]; [reflexivity |].
  destruct (decide (k = 1%nat)) as [-> |]; [vm_compute in Hk; injection Hk as <-; discriminate |].
  destruct (decide (k = 3%nat)) as [-> |]; [vm_compute in Hk; injection Hk as <-; discriminate |].
  unfold Sample.fleet in Hk. simpl in Hk.
  rewrite !lookup_insert_ne, lookup_empty in Hk by congruence. discriminate.
Defined.

(** ** Machines: registering, then logging in *)

Lemma new_machine_resolved e input st id m st' :
  new_machine e input st = (Resolved (id, m), st') ->
  IMachine.access_token m = generate_access_token e
  /\ IMachine.status m = None
  /\ machines st !! id = None
  /\ st' = set_machines (<[id:=m]> (machines st)) (issue (CreateMachine m) st).
Proof.
  unfold new_machine.
  destruct (Validators.validate_uuid (CreateMachineInput.hardware_uuid input)); simpl;
    [| discriminate].
  destruct (Validators.validate_uuid (CreateMachineInput.owner_uuid input)); simpl;
    [| discriminate].
  destruct (Validators.validate_hostname (CreateMachineInput.hostname input)); simpl;
    [| discriminate].
  unfold machines_create, command.
  destruct (fault e (Create c_machine)); [discriminate |].
  intros H. injection H as <- <- <-. repeat split. apply fresh_id_free.
Qed.

(** X8: a registered machine can log in with the token it was given:
    when [new_machine] resolves with a machine whose token no stored
    machine carried, and the calls do not fail, [login_machine] with that
    token resolves with that very machine, now Online. *)
Theorem new_machine_then_login_machine e input st id m st' :
  new_machine e input st = (Resolved (id, m), st') ->
  (forall k x, machines st !! k = Some x ->
               IMachine.access_token x <> generate_access_token e) ->
  fault e (FindOne c_machine) = None ->
  fault e (DocSave id) = None ->
  (login_machine e (IMachine.access_token m) st').1
  = Resolved (id, IMachine.set_status Online m)
  /\ machines (login_machine e (IMachine.access_token m) st').2 !! id
     = Some (IMachine.set_status Online m).
Proof.
  intros Hnew Hfresh Hfind Hsave.
  destruct (new_machine_resolved _ _ _ _ _ _ Hnew) as (Htok & _ & Hid & ->).
  assert (Hfirst : first_match (by_access_token (IMachine.access_token m))
                     (<[id:=m]> (machines st)) = Some (id, m)).
  { apply first_match_unique.
    - apply lookup_insert_eq.
    - unfold by_access_token. apply String.eqb_refl.
    - intros k x Hk Hx. destruct (decide (k = id)) as [-> |]; [reflexivity |].
      rewrite lookup_insert_ne in Hk by congruence.
      apply String.eqb_eq in Hx. rewrite Htok in Hx.
      now destruct (Hfresh k x Hk). }
  rewrite (login_machine_found e (IMachine.access_token m)
             (set_machines (<[id:=m]> (machines st)) (issue (CreateMachine m) st))
             id m Hfind Hfirst Hsave). simpl.
  split; [reflexivity | apply lookup_insert_eq].
Qed.

Lemma new_machine_then_login_machine_witness :
  (login_machine (Sample.env None 100000 Sample.healthy)
     (IMachine.access_token Cases.node1)
     (new_machine (Sample.env None 100000 Sample.healthy) Cases.node1_input
        Sample.empty).2).1
  = Resolved (fresh (dom (machines Sample.empty)), IMachine.set_status Online Cases.node1).
Proof.
  apply (new_machine_then_login_machine (Sample.env None 100000 Sample.healthy)
           Cases.node1_input Sample.empty
           (fresh (dom (machines Sample.empty))) Cases.node1
           (new_machine (Sample.env None 100000 Sample.healthy) Cases.node1_input
              Sample.empty).2 eq_refl); try reflexivity.
  intros k x Hk. simpl in Hk. rewrite lookup_empty in Hk. discriminate.
Defined.

(** ** The sweep: what it leaves behind *)

Lemma status_eqb_Online s : status_eqb s Online = true <-> s = Some Online.
Proof. destruct s as [[|] |]; simpl; split; congruence. Qed.

Lemma reap_check_NoTransition now m :
  reap_check now m = NoTransition <-> live_at now m.
Proof.
  unfold reap_check, live_at. split.
  - destruct (IMachine.last_update m) as [t |]; [| discriminate].
    destruct (Z.eqb_spec t 0); simpl; [discriminate |].
    rewrite !Z.gtb_ltb.
    destruct (Z.ltb_spec thirty_days (now - t)); [discriminate |].
    destruct (status_eqb (IMachine.status m) Online) eqn:Hs; simpl.
    + destruct (Z.ltb_spec ten_seconds (now - t)); [discriminate |].
      intros _. exists t. repeat split; try assumption. intros _. assumption.
    + intros _. exists t. repeat split; try assumption.
      intros Hon. apply status_eqb_Online in Hon. congruence.
  - intros (t & -> & Ht & Hmonth & Hon).
    destruct (Z.eqb_spec t 0); [contradiction |]. simpl.
    rewrite !Z.gtb_ltb.
    destruct (Z.ltb_spec thirty_days (now - t)); [lia |].
    destruct (status_eqb (IMachine.status m) Online) eqn:Hs; simpl; [| reflexivity].
    apply status_eqb_Online in Hs.
    destruct (Z.ltb_spec ten_seconds (now - t)); [| reflexivity].
    specialize (Hon Hs). lia.
Qed.

Lemma reap_check_Demote now m :
  reap_check now m = Demote ->
  IMachine.status m = Some Online /\ live_at now (IMachine.set_status Offline m).
Proof.
  unfold reap_check, live_at.
  destruct (IMachine.last_update m) as [t |] eqn:Ht; [| discriminate].
  destruct (Z.eqb_spec t 0); simpl; [discriminate |].
  rewrite !Z.gtb_ltb.
  destruct (Z.ltb_spec thirty_days (now - t)); [discriminate |].
  destruct (status_eqb (IMachine.status m) Online) eqn:Hs; simpl; [| discriminate].
  intros _. split; [now apply status_eqb_Online |].
  exists t. simpl. repeat split; try assumption. discriminate.
Qed.

(** The three ways a sweep can go. *)
Lemma cleanup_database_cases e st :
  cleanup_database e st = (Resolved tt, st)
  \/ (exists err, cleanup_database e st = (Rejected (Thrown err), st))
  \/ exists st',
      cleanup_database e st = (Resolved tt, st')
      /\ users st' = users st
      /\ labels st' = labels st
      /\ forall k,
          machines st' !! k =
          match machines st !! k with
          | Some m => reap_result e k m (reap_check (now e) m)
          | None => None
          end.
Proof.
  destruct (shard_skips (SHARD_ID e)) eqn:Hshard.
  { left. now apply cleanup_database_skipped. }
  destruct (fault e (Find c_machine)) as [err |] eqn:Hfind.
  - right; left. exists err. unfold cleanup_database. rewrite shard_guard, Hshard.
    unfold mbind at 1, M_bind at 1. unfold machines_find, query. now rewrite Hfind.
  - right; right.
    destruct (cleanup_database_sweep e st Hshard Hfind) as (st' & Hrun & Hu & Hl & _ & Hk).
    eauto 6.
Qed.

(** X9: whatever the shard identifier, the faults and the outcome, a
    sweep leaves the users and the labels alone and creates no machine;
    a machine that remains is as it was, or was Online and is now
    Offline with its other fields unchanged. *)
Theorem cleanup_database_only_evicts_or_demotes e st :
  users (cleanup_database e st).2 = users st
  /\ labels (cleanup_database e st).2 = labels st
  /\ forall k m',
      machines (cleanup_database e st).2 !! k = Some m' ->
      exists m,
        machines st !! k = Some m
        /\ (m' = m
            \/ (IMachine.status m = Some Online /\ m' = IMachine.set_status Offline m)).
Proof.
  destruct (cleanup_database_cases e st)
    as [-> | [[err ->] | (st' & -> & Hu & Hl & Hk)]]; simpl;
    try (repeat split; eauto; fail).
  repeat split; try assumption.
  intros k m'. rewrite Hk. destruct (machines st !! k) as [m |]; [| discriminate].
  intros Hres. exists m. split; [reflexivity |].
  destruct (reap_check (now e) m) eqn:Hcheck; simpl in Hres.
  - destruct (fault e (DocDelete k)); [| discriminate]. left. congruence.
  - destruct (reap_check_Demote _ _ Hcheck) as [Hon _].
    destruct (fault e (DocSave k)); [left; congruence | right; split; congruence].
  - left. congruence.
Qed.

Lemma cleanup_database_only_evicts_or_demotes_witness :
  exists m,
    machines Sample.fleet !! 2%nat = Some m
    /\ (IMachine.set_status Offline Sample.quiet = m
        \/ (IMachine.status m = Some Online
            /\ IMachine.set_status Offline Sample.quiet = IMachine.set_status Offline m)).
Proof.
  apply (cleanup_database_only_evicts_or_demotes
           (Sample.env None 100000 Sample.delete_1_fails) Sample.fleet).
  reflexivity.
Defined.

Lemma healthy_sweep e st :
  healthy e ->
  shard_skips (SHARD_ID e) = false ->
  exists st',
    cleanup_database e st = (Resolved tt, st')
    /\ users st' = users st
    /\ labels st' = labels st
    /\ journal st' = (journal st ++ sweep_writes (now e) (map_to_list (machines st)))%list
    /\ forall k,
        machines st' !! k =
        match machines st !! k with
        | Some m =>
            match reap_check (now e) m with
            | Evict => None
            | Demote => Some (IMachine.set_status Offline m)
            | NoTransition => Some m
            end
        | None => None
        end.
Proof.
  intros Hhealthy Hshard.
  destruct (cleanup_database_sweep e st Hshard (Hhealthy _))
    as (st' & Hrun & Hu & Hl & Hj & Hk).
  exists st'. repeat split; try assumption.
  intros k. rewrite Hk. destruct (machines st !! k) as [m |]; [| reflexivity].
  unfold reap_result. rewrite !Hhealthy. reflexivity.
Qed.

(** X10: after a sweep that ran with no storage failure, every machine
    left has reported, no more than thirty days before the sweep, and if
    it is Online no more than ten seconds before. *)
Theorem cleanup_database_leaves_live_machines e st k m' :
  healthy e ->
  shard_skips (SHARD_ID e) = false ->
  machines (cleanup_database e st).2 !! k = Some m' ->
  live_at (now e) m'.
Proof.
  intros Hhealthy Hshard.
  destruct (healthy_sweep e st Hhealthy Hshard) as (st' & -> & _ & _ & _ & Hk).
  simpl. rewrite Hk. destruct (machines st !! k) as [m |]; [| discriminate].
  destruct (reap_check (now e) m) eqn:Hcheck; [discriminate | |];
    intros H; injection H as <-.
  - now destruct (reap_check_Demote _ _ Hcheck).
  - now apply reap_check_NoTransition.
Qed.

Lemma cleanup_database_leaves_live_machines_witness :
  live_at 100000 (IMachine.set_status Offline Sample.quiet)
  /\ live_at 100000 Sample.lively.
Proof.
  split.
  - apply (cleanup_database_leaves_live_machines
             (Sample.env None 100000 Sample.healthy) Sample.fleet 2%nat);
      [intros c | |]; reflexivity.
  - apply (cleanup_database_leaves_live_machines
             (Sample.env None 100000 Sample.healthy) Sample.fleet 3%nat);
      [intros c | |]; reflexivity.
Defined.

Lemma sweep_writes_of_live now docs :
  (forall d, d ∈ docs -> live_at now d.2) -> sweep_writes now docs = [].
Proof.
  unfold sweep_writes. induction docs as [| d docs IH]; intros Hlive; [reflexivity |].
  simpl. rewrite (proj2 (reap_check_NoTransition now d.2)) by (apply Hlive; left).
  simpl. apply IH. intros d' Hd'. apply Hlive. now right.
Qed.

(** X11: a sweep is idempotent: with no storage failure, a second sweep
    at the same time resolves and leaves the store exactly as the first
    one left it, journal included: it issues no write. *)
Theorem cleanup_database_twice e st :
  healthy e ->
  shard_skips (SHARD_ID e) = false ->
  cleanup_database e (cleanup_database e st).2
  = (Resolved tt, (cleanup_database e st).2).
Proof.
  intros Hhealthy Hshard.
  assert (Hlive : forall k m, machines (cleanup_database e st).2 !! k = Some m ->
                              reap_check (now e) m = NoTransition).
  { intros k m Hk. apply reap_check_NoTransition.
    destruct (healthy_sweep e st Hhealthy Hshard) as (st1 & Hrun & _ & _ & _ & Hk1).
    rewrite Hrun in Hk. simpl in Hk. rewrite Hk1 in Hk.
    destruct (machines st !! k) as [m0 |]; [| discriminate].
    destruct (reap_check (now e) m0) eqn:Hcheck; [discriminate | |];
      injection Hk as <-.
    - now destruct (reap_check_Demote _ _ Hcheck).
    - now apply reap_check_NoTransition. }
  set (st1 := (cleanup_database e st).2) in *.
  destruct (healthy_sweep e st1 Hhealthy Hshard) as (st2 & -> & Hu & Hl & Hj & Hk).
  f_equal.
  rewrite sweep_writes_of_live, app_nil_r in Hj.
  2:{ intros [k m] Hd. apply reap_check_NoTransition, (Hlive k).
      now apply elem_of_map_to_list. }
  assert (Hm : machines st2 = machines st1).
  { apply map_eq. intros k. rewrite Hk.
    destruct (machines st1 !! k) as [m |] eqn:Hm; [| reflexivity].
    now rewrite (Hlive k m Hm). }
  rewrite <- (store_eta st2), <- (store_eta st1). congruence.
Qed.

Lemma cleanup_database_twice_witness :
  cleanup_database (Sample.env None 100000 Sample.healthy)
    (cleanup_database (Sample.env None 100000 Sample.healthy) Sample.fleet).2
  = (Resolved tt, (cleanup_database (Sample.env None 100000 Sample.healthy) Sample.fleet).2).
Proof.
  apply (cleanup_database_twice (Sample.env None 100000 Sample.healthy) Sample.fleet);
    [intros c |]; reflexivity.
Defined.

(** X12: logging in does not refresh [last_update], so it does not
    shield a machine from the next sweep: with no storage failure, a
    machine that never reported is evicted by a sweep right after its
    login, and one whose last report is more than ten seconds (and at
    most thirty days) old is Offline again after it. *)
Theorem login_machine_then_cleanup_database e access_token st id m :
  healthy e ->
  shard_skips (SHARD_ID e) = false ->
  first_match (by_access_token access_token) (machines st) = Some (id, m) ->
  (IMachine.last_update m = None ->
   machines (cleanup_database e (login_machine e access_token st).2).2 !! id = None)
  /\ (forall t,
        IMachine.last_update m = Some t -> t <> 0 ->
        ten_seconds < now e - t -> now e - t <= thirty_days ->
        machines (cleanup_database e (login_machine e access_token st).2).2 !! id
        = Some (IMachine.set_status Offline m)).
Proof.
  intros Hhealthy Hshard Hfirst.
  rewrite (login_machine_found e _ st id m (Hhealthy _) Hfirst (Hhealthy _)). simpl.
  set (st1 := set_machines _ _).
  destruct (healthy_sweep e st1 Hhealthy Hshard) as (st2 & -> & _ & _ & _ & Hk).
  simpl. rewrite Hk. unfold st1. simpl. rewrite lookup_insert_eq.
  unfold reap_check. simpl. split.
  - intros ->. reflexivity.
  - intros t -> Ht Hquiet Hmonth.
    destruct (Z.eqb_spec t 0); [contradiction |]. simpl.
    rewrite !Z.gtb_ltb.
    destruct (Z.ltb_spec thirty_days (now e - t)); [lia |].
    destruct (Z.ltb_spec ten_seconds (now e - t)); [reflexivity | lia].
Qed.

Lemma login_machine_then_cleanup_database_witness :
  machines (cleanup_database (Sample.env None 100000 Sample.healthy)
              (login_machine (Sample.env None 100000 Sample.healthy) "token-silent"
                 Sample.fleet).2).2 !! 1%nat = None
  /\ machines (cleanup_database (Sample.env None 100000 Sample.healthy)
                 (login_machine (Sample.env None 100000 Sample.healthy) "token-dormant"
                    Sample.parked).2).2 !! 4%nat
     = Some Sample.dormant.
Proof.
  split.
  - apply (login_machine_then_cleanup_database
             (Sample.env None 100000 Sample.healthy) "token-silent" Sample.fleet
             1%nat Sample.silent); [intros c | | |]; reflexivity.
  - apply (login_machine_then_cleanup_database
             (Sample.env None 100000 Sample.healthy) "token-dormant" Sample.parked
             4%nat Sample.dormant) with (t := 5000); [intros c | | | | | |];
      try reflexivity; unfold thirty_days, ten_seconds; simpl; lia.
Defined.

(** ** [find_one] and [find] *)

Lemma or_reject_cases {A} (x : option A) msg st :
  or_reject x msg st
  = match x with
    | Some d => (Resolved d, st)
    | None => (Rejected (Message msg), st)
    end.
Proof. now destruct x. Qed.

Lemma find_one_run e c filter st :
  fault e (FindOne c) = None ->
  find_one e c filter st
  = match first_match filter (docs_of c st) with
    | Some d => (Resolved d, st)
    | None => (Rejected (Message (collection_name c ++ ".notFound")), st)
    end.
Proof.
  intros Hfind.
  destruct c; simpl; unfold mbind, M_bind, users_findOne, labels_findOne, machines_findOne;
    rewrite (query_ok _ _ _ _ Hfind); apply or_reject_cases.
Qed.

(** X13: when the lookup itself does not fail, [find_one] resolves with
    a document that is stored in the collection and accepted by the
    filter, and it rejects, with the message made of the collection name
    and .notFound, only when the filter accepts no stored document. *)
Theorem find_one_finds e c filter st :
  fault e (FindOne c) = None ->
  match find_one e c filter st with
  | (Resolved (id, d), _) => docs_of c st !! id = Some d /\ filter d = true
  | (Rejected r, _) =>
      r = Message (collection_name c ++ ".notFound")
      /\ forall id d, docs_of c st !! id = Some d -> filter d = false
  end.
Proof.
  intros Hfind. rewrite (find_one_run e c filter st Hfind).
  destruct (first_match filter (docs_of c st)) as [[id d] |] eqn:Hm.
  - exact (first_match_Some _ _ _ _ Hm).
  - split; [reflexivity |]. intros id d. exact (first_match_None _ _ _ _ Hm).
Qed.

Lemma find_one_finds_witness :
  users Sample.one_user !! 1%nat = Some Sample.alice
  /\ forall id d, machines Sample.one_user !! id = Some d ->
                  by_access_token "token-quiet" d = false.
Proof.
  split.
  - apply (find_one_finds (Sample.env None 100000 Sample.healthy) c_user
             (by_username "alice") Sample.one_user eq_refl).
  - apply (find_one_finds (Sample.env None 100000 Sample.healthy) c_machine
             (by_access_token "token-quiet") Sample.one_user eq_refl).
Defined.

(** X14: when the read does not fail, [find] resolves, also when nothing
    matches, with exactly the stored documents the filter accepts, each
    once: the rejection with ...s.notFound is never taken. *)
Theorem find_returns_the_matches e c filter st :
  fault e (Find c) = None ->
  exists found,
    find e c filter st = (Resolved found, st)
    /\ List.NoDup found
    /\ forall id d, List.In (id, d) found <-> docs_of c st !! id = Some d /\ filter d = true.
Proof.
  intros Hfind.
  exists (List.filter (fun d => filter d.2) (map_to_list (docs_of c st))).
  split; [| split].
  - destruct c; simpl; unfold mbind, M_bind, users_find, labels_find, machines_find;
      now rewrite (query_ok _ _ _ _ Hfind).
  - apply List.NoDup_filter, NoDup_ListNoDup, NoDup_map_to_list.
  - intros id d. rewrite List.filter_In. simpl.
    now rewrite <- list_elem_of_In, elem_of_map_to_list.
Qed.

Lemma find_returns_the_matches_witness :
  exists found,
    find (Sample.env None 100000 Sample.healthy) c_label (fun _ => true) Sample.fleet
    = (Resolved found, Sample.fleet)
    /\ forall id d, ~ List.In (id, d) found.
Proof.
  destruct (find_returns_the_matches (Sample.env None 100000 Sample.healthy) c_label
              (fun _ => true) Sample.fleet eq_refl) as (found & Hrun & _ & Hin).
  exists found. split; [exact Hrun |].
  intros id d Hd. apply Hin in Hd as [Hd _]. simpl in Hd.
  rewrite lookup_empty in Hd. discriminate.
Defined.

(** ** Identifiers and tokens *)

Lemma dash_is_dash c : is_dash c = true -> c = "-"%char.
Proof.
  unfold is_dash, code. intros H. apply N.eqb_eq in H.
  rewrite <- (ascii_N_embedding c), H. reflexivity.
Qed.

Lemma fits_hex_group n shape : forall s,
  fits (repeat Hex n ++ shape) s = true ->
  exists rest, Joi.hex n s = Some rest /\ fits shape rest = true.
Proof.
  induction n as [| n IH]; intros s Hfits; simpl in *.
  - eauto.
  - destruct s as [| c s]; [discriminate |].
    apply andb_true_iff in Hfits as [Hc Hs]. rewrite Hc. now apply IH.
Qed.

Lemma fits_dash shape s :
  fits (Dash :: shape) s = true ->
  exists rest, s = ("-"%char :: rest) /\ fits shape rest = true.
Proof.
  destruct s as [| c s]; simpl; [discriminate |].
  intros Hfits. apply andb_true_iff in Hfits as [Hc Hs].
  apply dash_is_dash in Hc as ->. eauto.
Qed.

Lemma hex_not_open c : is_hex c = true -> Joi.is_open c = false.
Proof.
  intros Hc. destruct (Joi.is_open c) eqn:Ho; [| reflexivity].
  unfold Joi.is_open in Ho.
  repeat (apply orb_true_iff in Ho as [Ho | Ho]);
    apply Ascii.eqb_eq in Ho; subst c; discriminate.
Qed.

(** X15: every identifier in the printed form of [uuidv4()] - groups of
    8, 4, 4, 4 and 12 hexadecimal digits joined by dashes - passes
    [validate_uuid]. *)
Theorem validate_uuid_accepts_printed_uuid (u : string) :
  canonical_uuid u = true -> Validators.validate_uuid u = true.
Proof.
  unfold canonical_uuid, uuid_shape. intros Hfits.
  assert (Hne : Joi.string_ u = true).
  { unfold Joi.string_. destruct u; [discriminate Hfits | reflexivity]. }
  unfold Validators.validate_uuid. rewrite Hne. simpl.
  unfold Joi.uuid.
  destruct (chars u) as [| c0 s0] eqn:Hu; [discriminate Hfits |].
  assert (Hc0 : is_hex c0 = true) by (simpl in Hfits; now apply andb_true_iff in Hfits).
  unfold Joi.optional at 1. rewrite (hex_not_open c0 Hc0).
  apply (fits_hex_group 8) in Hfits as (r1 & -> & Hfits).
  apply fits_dash in Hfits as (r2 & -> & Hfits). simpl Joi.optional. cbv iota beta.
  apply (fits_hex_group 4) in Hfits as (r3 & -> & Hfits).
  apply fits_dash in Hfits as (r4 & -> & Hfits). simpl Joi.backref; rewrite ?Ascii.eqb_refl.
  apply (fits_hex_group 4) in Hfits as (r5 & -> & Hfits).
  apply fits_dash in Hfits as (r6 & -> & Hfits). simpl Joi.backref; rewrite ?Ascii.eqb_refl.
  apply (fits_hex_group 4) in Hfits as (r7 & -> & Hfits).
  apply fits_dash in Hfits as (r8 & -> & Hfits). simpl Joi.backref; rewrite ?Ascii.eqb_refl.
  rewrite <- (app_nil_r (repeat Hex 12)) in Hfits.
  apply (fits_hex_group 12) in Hfits as (r9 & -> & Hfits).
  destruct r9; [reflexivity | discriminate].
Qed.

Lemma validate_uuid_accepts_printed_uuid_witness :
  Validators.validate_uuid Sample.other_uuid = true.
Proof. apply validate_uuid_accepts_printed_uuid. reflexivity. Defined.

Lemma hex_length n : forall s rest,
  Joi.hex n s = Some rest -> length s = (n + length rest)%nat.
Proof.
  induction n as [| n IH]; intros s rest H; simpl in *.
  - now injection H as ->.
  - destruct s as [| c s]; [discriminate |].
    destruct (is_hex c); [| discriminate]. simpl. now rewrite (IH _ _ H).
Qed.

Lemma optional_length cls s :
  length s = length (Joi.optional cls s).2
  \/ length s = S (length (Joi.optional cls s).2).
Proof.
  destruct s as [| c s]; simpl; [now left |].
  destruct (cls c); simpl; [now right | now left].
Qed.

Lemma backref_length g s :
  length s = length (Joi.backref g s) \/ length s = S (length (Joi.backref g s)).
Proof.
  destruct g as [d |], s as [| c s]; simpl; try now left.
  destruct (Ascii.eqb c d); simpl; [now right | now left].
Qed.

Lemma chars_length s : length (chars s) = String.length s.
Proof. induction s as [| c s IH]; simpl; [reflexivity | now rewrite IH]. Qed.

(** X16: a string that passes [validate_uuid] has between 32 and 38
    characters: the 32 digits, up to four separators and up to two
    brackets. *)
Theorem validate_uuid_length (u : string) :
  Validators.validate_uuid u = true ->
  (32 <= String.length u <= 38)%nat.
Proof.
  unfold Validators.validate_uuid. intros H. apply andb_true_iff in H as [_ H].
  rewrite <- chars_length. unfold Joi.uuid in H.
  pose proof (optional_length Joi.is_open (chars u)) as L0.
  destruct (Joi.optional Joi.is_open (chars u)) as [o s0]. simpl in L0.
  destruct (Joi.hex 8 s0) as [s1 |] eqn:H1; [| discriminate].
  apply hex_length in H1.
  pose proof (optional_length Joi.is_separator s1) as L1.
  destruct (Joi.optional Joi.is_separator s1) as [sep s2]. simpl in L1.
  destruct (Joi.hex 4 s2) as [s3 |] eqn:H2; [| discriminate].
  apply hex_length in H2.
  pose proof (backref_length sep s3) as L2.
  destruct (Joi.hex 4 (Joi.backref sep s3)) as [s4 |] eqn:H3; [| discriminate].
  apply hex_length in H3.
  pose proof (backref_length sep s4) as L3.
  destruct (Joi.hex 4 (Joi.backref sep s4)) as [s5 |] eqn:H4; [| discriminate].
  apply hex_length in H4.
  pose proof (backref_length sep s5) as L4.
  destruct (Joi.hex 12 (Joi.backref sep s5)) as [s6 |] eqn:H5; [| discriminate].
  apply hex_length in H5.
  pose proof (optional_length Joi.is_close s6) as L5.
  destruct (Joi.optional Joi.is_close s6) as [cl s7]. simpl in L5.
  destruct s7; [| discriminate]. simpl in L5.
  lia.
Qed.

Lemma validate_uuid_length_witness :
  (32 <= String.length Sample.an_uuid <= 38)%nat.
Proof. apply validate_uuid_length. reflexivity. Defined.

Lemma strip_fits_inj shape : forall s1 s2,
  fits shape s1 = true -> fits shape s2 = true ->
  List.filter (fun c => negb (is_dash c)) s1 = List.filter (fun c => negb (is_dash c)) s2 ->
  s1 = s2.
Proof.
  induction shape as [| [|] shape IH]; intros [| c1 s1] [| c2 s2] H1 H2 Heq;
    simpl in H1, H2; try discriminate.
  - reflexivity.
  - apply andb_true_iff in H1 as [Hc1 H1]. apply andb_true_iff in H2 as [Hc2 H2].
    simpl in Heq. rewrite (hex_not_dash c1 Hc1), (hex_not_dash c2 Hc2) in Heq.
    simpl in Heq. injection Heq as -> Heq. f_equal. now apply IH.
  - apply andb_true_iff in H1 as [Hc1 H1]. apply andb_true_iff in H2 as [Hc2 H2].
    simpl in Heq. rewrite Hc1, Hc2 in Heq. simpl in Heq.
    apply dash_is_dash in Hc1 as ->. apply dash_is_dash in Hc2 as ->.
    f_equal. now apply IH.
Qed.

Lemma strip_dashes_inj (u v : string) :
  canonical_uuid u = true -> canonical_uuid v = true ->
  strip_dashes u = strip_dashes v -> u = v.
Proof.
  intros Hu Hv Heq. unfold strip_dashes in Heq.
  apply (f_equal list_ascii_of_string) in Heq.
  rewrite !list_ascii_of_string_of_list_ascii in Heq.
  apply (strip_fits_inj uuid_shape _ _ Hu Hv) in Heq. unfold chars in Heq.
  rewrite <- (string_of_list_ascii_of_string u), <- (string_of_list_ascii_of_string v).
  now rewrite Heq.
Qed.

Lemma string_app_inj (a b x y : string) :
  String.length a = String.length b -> a ++ x = b ++ y -> a = b /\ x = y.
Proof.
  revert b. induction a as [| c a IH]; intros [| d b] Hlen Heq; simpl in *;
    try discriminate.
  - now split.
  - injection Hlen as Hlen. injection Heq as -> Heq.
    destruct (IH b Hlen Heq) as [-> ->]. now split.
Qed.

(** X17: stripping the dashes loses nothing: two access tokens made of
    printed identifiers are equal only if the four identifiers drawn for
    the one are, in order, those drawn for the other. *)
Theorem generate_access_token_injective e1 e2 :
  (forall k, (k < 4)%nat -> canonical_uuid (uuidv4 e1 k) = true) ->
  (forall k, (k < 4)%nat -> canonical_uuid (uuidv4 e2 k) = true) ->
  generate_access_token e1 = generate_access_token e2 ->
  forall k, (k < 4)%nat -> uuidv4 e1 k = uuidv4 e2 k.
Proof.
  intros H1 H2 Heq.
  assert (L1 : forall k, (k < 4)%nat -> String.length (strip_dashes (uuidv4 e1 k)) = 32%nat)
    by (intros k Hk; now apply strip_canonical_uuid, H1).
  assert (L2 : forall k, (k < 4)%nat -> String.length (strip_dashes (uuidv4 e2 k)) = 32%nat)
    by (intros k Hk; now apply strip_canonical_uuid, H2).
  unfold generate_access_token in Heq. rewrite !strip_dashes_app in Heq.
  apply string_app_inj in Heq as [E0 Heq]; [| rewrite L1, L2; lia].
  apply string_app_inj in Heq as [E1 Heq]; [| rewrite L1, L2; lia].
  apply string_app_inj in Heq as [E2 E3]; [| rewrite L1, L2; lia].
  intros k Hk.
  destruct k as [| [| [| [| k]]]]; try lia;
    apply strip_dashes_inj; try assumption; (apply H1 || apply H2); lia.
Qed.

Lemma generate_access_token_injective_witness :
  uuidv4 (Sample.env None 100000 Sample.healthy) 0
  = uuidv4 (Sample.env (Some "1") 5 Sample.delete_1_fails) 0.
Proof.
  refine (generate_access_token_injective
            (Sample.env None 100000 Sample.healthy)
            (Sample.env (Some "1") 5 Sample.delete_1_fails) _ _ _ 0%nat _).
  - intros k _. reflexivity.
  - intros k _. vm_compute. reflexivity.
  - vm_compute. reflexivity.
  - lia.
Defined.

(** ** Host names *)

Lemma split_on_nonempty sep s : Validators.split_on sep s <> [].
Proof.
  destruct s as [| c s]; simpl; [discriminate |].
  destruct (Ascii.eqb c sep); [discriminate |].
  destruct (Validators.split_on sep s); discriminate.
Qed.

Lemma last_cons_nonempty {A} (a : A) l d : l <> [] -> List.last (a :: l) d = List.last l d.
Proof. destruct l; [congruence | reflexivity]. Qed.

Lemma last_default {A} (l : list A) d d' : l <> [] -> List.last l d = List.last l d'.
Proof.
  induction l as [| a l IH]; [congruence |]. intros _.
  destruct l as [| b l]; [reflexivity |].
  rewrite !(last_cons_nonempty a) by discriminate. apply IH. discriminate.
Qed.

Lemma tidy_host_cons c s :
  host_char c = true ->
  (s = [] -> is_alnum c = true) ->
  tidy_host s ->
  tidy_host (c :: s).
Proof.
  intros Hc Hlast [Hall Hend]. split.
  - simpl. now rewrite Hc, Hall.
  - intros _ d. destruct s as [| b s]; [now apply Hlast |].
    rewrite last_cons_nonempty by discriminate. now apply Hend.
Qed.

(** The pieces between the dots, read back as a property of the string. *)
Lemma host_pieces s :
  (forallb Validators.host_label (Validators.split_on "."%char s) = true ->
   tidy_host s /\ s <> [] /\ forall d, is_alnum (List.hd d s) = true)
  /\ (forall piece pieces,
        Validators.split_on "."%char s = piece :: pieces ->
        forallb (fun c => is_alnum c || is_dash c) piece = true ->
        (piece <> [] -> forall d, is_alnum (List.last piece d) = true) ->
        forallb Validators.host_label pieces = true ->
        tidy_host s).
Proof.
  induction s as [| c s [IHa IHb]].
  - split; [discriminate |]. intros. split; [reflexivity | congruence].
  - simpl. destruct (Ascii.eqb c "."%char) eqn:Hdot.
    + split; [discriminate |].
      intros piece pieces Hsplit _ _ Hpieces. injection Hsplit as <- <-.
      destruct (IHa Hpieces) as (Htidy & Hne & _).
      apply tidy_host_cons; [| congruence | exact Htidy].
      unfold host_char. rewrite Hdot. apply orb_true_r.
    + destruct (Validators.split_on "."%char s) as [| piece' pieces'] eqn:Hsplit.
      { now destruct (split_on_nonempty "."%char s). }
      assert (Hempty : s = [] -> piece' = []).
      { intros ->. simpl in Hsplit. congruence. }
      split.
      * intros H. apply andb_true_iff in H as [Hlabel Hpieces].
        unfold Validators.host_label in Hlabel.
        apply andb_true_iff in Hlabel as [Hlabel Hall].
        apply andb_true_iff in Hlabel as [Hc Hlast].
        simpl in Hall. apply andb_true_iff in Hall as [_ Hall].
        split; [| split; [discriminate | intros d; exact Hc]].
        apply tidy_host_cons.
        -- unfold host_char. now rewrite Hc.
        -- intros _. exact Hc.
        -- apply (IHb piece' pieces' eq_refl Hall); [| exact Hpieces].
           intros Hne d. rewrite (last_default _ d c Hne).
           now rewrite <- (last_cons_nonempty c piece' c Hne).
      * intros piece pieces Heq Hall Hlast Hpieces. injection Heq as <- <-.
        simpl in Hall. apply andb_true_iff in Hall as [Hc Hall].
        apply tidy_host_cons.
        -- unfold host_char. rewrite Hc. reflexivity.
        -- intros Hs. specialize (Hlast ltac:(discriminate) c).
           now rewrite (Hempty Hs) in Hlast.
        -- apply (IHb piece' pieces' eq_refl Hall); [| exact Hpieces].
           intros Hne d. rewrite <- (last_cons_nonempty c piece' d Hne).
           apply Hlast. discriminate.
Qed.

(** X18: a string that passes [validate_hostname] has between 1 and 253
    characters, all of them letters, digits, hyphens or dots, and it
    begins and ends with a letter or a digit. *)
Theorem validate_hostname_shape (hostname : string) :
  Validators.validate_hostname hostname = true ->
  (1 <= String.length hostname <= 253)%nat
  /\ forallb host_char (chars hostname) = true
  /\ (forall d, is_alnum (List.hd d (chars hostname)) = true)
  /\ (forall d, is_alnum (List.last (chars hostname) d) = true).
Proof.
  unfold Validators.validate_hostname, Validators.hostname_pattern, Joi.max.
  intros H. apply andb_true_iff in H as [H Hmax].
  apply andb_true_iff in H as [_ Hpattern].
  apply Nat.leb_le in Hmax.
  destruct (proj1 (host_pieces (chars hostname)) Hpattern) as ([Hall Hend] & Hne & Hhd).
  repeat split; try assumption.
  - rewrite <- chars_length. destruct (chars hostname); [congruence | simpl; lia].
  - now apply Hend.
Qed.

Lemma validate_hostname_shape_witness :
  forallb host_char (chars "783f7f2f32-j3fk.test.com") = true.
Proof.
  apply (validate_hostname_shape "783f7f2f32-j3fk.test.com"). reflexivity.
Defined.

(** ** Labels: the stored name and the checked fields *)

Lemma chars_string_of (l : list ascii) : chars (string_of_list_ascii l) = l.
Proof. apply list_ascii_of_string_of_list_ascii. Qed.

Lemma label_name_chars (name : string) :
  chars (label_name name) = map label_char (chars name).
Proof.
  unfold label_name, dash_spaces, toLowerCase.
  rewrite !chars_string_of, map_map. reflexivity.
Qed.

Lemma label_char_normal c :
  label_char (label_char c) = label_char c
  /\ is_capital (label_char c) = false
  /\ is_space (label_char c) = false.
Proof. destruct c as [[|] [|] [|] [|] [|] [|] [|] [|]]; repeat split. Qed.

(** X19: for an input name whose code units are all below 256 (the
    strings of the model), the name [new_label] computes has the length
    of the input name, holds no capital letter and no white-space
    character, and is left unchanged when it is normalised again. *)
Theorem label_name_normal (name : string) :
  String.length (label_name name) = String.length name
  /\ forallb (fun c => negb (is_capital c) && negb (is_space c)) (chars (label_name name))
     = true
  /\ label_name (label_name name) = label_name name.
Proof.
  split; [| split].
  - rewrite <- !chars_length, label_name_chars. apply length_map.
  - rewrite label_name_chars. apply forallb_forall. intros c Hc.
    apply in_map_iff in Hc as (c0 & <- & _).
    destruct (label_char_normal c0) as (_ & -> & ->). reflexivity.
  - rewrite <- (string_of_list_ascii_of_string (label_name (label_name name))).
    rewrite <- (string_of_list_ascii_of_string (label_name name)) at 2.
    f_equal. fold (chars (label_name (label_name name))) (chars (label_name name)).
    rewrite !label_name_chars, map_map. apply map_ext. intros c.
    apply label_char_normal.
Qed.

(** A no-break space (U+00A0) in the name becomes a dash, as a space
    does, and a capital letter of Latin-1 its small letter. *)
Example label_name_latin1 :
  label_name ("My" ++ String (ascii_of_N 160) "Label") = "my-label"
  /\ label_name (String (ascii_of_N 201) "t") = String (ascii_of_N 233) "t".
Proof. split; reflexivity. Qed.

Lemma falsy_or_checked (check : string -> bool) (field : option string) :
  truthy_str field && negb (check (default "" field)) = false ->
  forall x, field = Some x -> x <> "" -> check x = true.
Proof.
  intros H x -> Hx. simpl in H.
  destruct (String.eqb_spec x ""); [contradiction |]. simpl in H.
  now destruct (check x).
Qed.

(** X20: whenever [new_label] resolves, the stored label has the
    normalised name, a well-formed owner_uuid, a colour that passes
    [validate_hex_color], a name that passes [validate_label_name] unless
    the input name was empty, an icon of [LABEL_ICONS] and a description
    of at most 300 characters unless they are empty or absent; it is
    stored under a new id and no other label changed. *)
Theorem new_label_stores_checked_fields e input st id l st' :
  new_label e input st = (Resolved (id, l), st') ->
  ILabel.name l = label_name (ICreateLabelInput.name input)
  /\ Validators.validate_uuid (ILabel.owner_uuid l) = true
  /\ Validators.validate_hex_color (ILabel.color l) = true
  /\ (ICreateLabelInput.name input <> "" ->
      Validators.validate_label_name (ILabel.name l) = true)
  /\ (forall i, ILabel.icon l = Some i -> i <> "" -> List.In i (LABEL_ICONS e))
  /\ (forall d, ILabel.description l = Some d -> (String.length d <= 300)%nat)
  /\ labels st !! id = None
  /\ labels st' !! id = Some l
  /\ (forall k, k <> id -> labels st' !! k = labels st !! k).
Proof.
  unfold new_label. fold (label_name (ICreateLabelInput.name input)).
  set (color := or_else (ICreateLabelInput.color input) (randomHexColor e)).
  set (name := label_name (ICreateLabelInput.name input)).
  destruct (Validators.validate_uuid (ICreateLabelInput.owner_uuid input)) eqn:Howner;
    simpl negb; cbv iota; [| discriminate].
  destruct (truthy_str (Some (ICreateLabelInput.name input))
            && negb (Validators.validate_label_name name)) eqn:Hname; [discriminate |].
  destruct (truthy_str (Some color) && negb (Validators.validate_hex_color color))
    eqn:Hcolor; [discriminate |].
  destruct (truthy_str (ICreateLabelInput.icon input)
            && negb (Validators.validate_label_icon (LABEL_ICONS e)
                       (default "" (ICreateLabelInput.icon input)))) eqn:Hicon;
    [discriminate |].
  destruct (truthy_str (ICreateLabelInput.description input)
            && negb (Validators.validate_label_description
                       (default "" (ICreateLabelInput.description input))))
    eqn:Hdescription; [discriminate |].
  unfold labels_create, command.
  destruct (fault e (Create c_label)); [discriminate |].
  intros H. injection H as <- <- <-. simpl.
  split; [reflexivity |]. split; [exact Howner |]. split; [| split; [| split; [| split]]].
  - destruct (String.eqb_spec color "") as [-> | Hne]; [reflexivity |].
    simpl in Hcolor. destruct (String.eqb_spec color ""); [contradiction |].
    simpl in Hcolor. now destruct (Validators.validate_hex_color color).
  - intros Hne. simpl in Hname.
    destruct (String.eqb_spec (ICreateLabelInput.name input) ""); [contradiction |].
    simpl in Hname. now destruct (Validators.validate_label_name name).
  - intros i Hi Hne.
    pose proof (falsy_or_checked _ _ Hicon i Hi Hne) as Hin.
    unfold Validators.validate_label_icon in Hin.
    apply existsb_exists in Hin as (i' & Hin & Heq).
    apply String.eqb_eq in Heq. now subst i'.
  - intros d Hd.
    destruct (String.eqb_spec d "") as [-> | Hne]; [simpl; lia |].
    pose proof (falsy_or_checked _ _ Hdescription d Hd Hne) as Hok.
    unfold Validators.validate_label_description, Joi.max in Hok.
    apply andb_true_iff in Hok as [_ Hok]. now apply Nat.leb_le.
  - split; [apply fresh_id_free |]. split; [apply lookup_insert_eq |].
    intros k Hk. now rewrite lookup_insert_ne by congruence.
Qed.

Lemma new_label_stores_checked_fields_witness :
  Validators.validate_label_name "my-first-label" = true
  /\ List.In "cloud" (LABEL_ICONS (Sample.env None 100000 Sample.healthy)).
Proof.
  destruct (new_label_stores_checked_fields (Sample.env None 100000 Sample.healthy)
              (ICreateLabelInput.mk Sample.an_uuid "My First Label" None (Some "cloud") None)
              Sample.empty
              (fresh (dom (labels Sample.empty)))
              (ILabel.mk Sample.an_uuid "my-first-label" "#a1b2c3" None (Some "cloud"))
              (set_labels
                 (<[fresh (dom (labels Sample.empty)) :=
                      ILabel.mk Sample.an_uuid "my-first-label" "#a1b2c3" None
                        (Some "cloud")]> (labels Sample.empty))
                 (issue (CreateLabel
                           (ILabel.mk Sample.an_uuid "my-first-label" "#a1b2c3" None
                              (Some "cloud"))) Sample.empty))
              eq_refl)
    as (_ & _ & _ & Hname & Hicon & _).
  split.
  - apply Hname. discriminate.
  - apply (Hicon "cloud" eq_refl). discriminate.
Defined.

(** X21: a rejection of [new_label] with a message is one of its five
    validation messages, and it leaves the store and the journal as they
    were: nothing is written before every check has passed. *)
Theorem new_label_rejection_writes_nothing e input st s st' :
  new_label e input st = (Rejected (Message s), st') ->
  st' = st
  /\ List.In s ["invalid.owner_uuid"; "invalid.label.name"; "invalid.hex.color";
                "invalid.label.icon"; "invalid.label.description"].
Proof.
  unfold new_label.
  destruct (negb (Validators.validate_uuid (ICreateLabelInput.owner_uuid input))).
  { intros H. injection H as <- <-. simpl. auto 10. }
  destruct (truthy_str (Some (ICreateLabelInput.name input)) && _).
  { intros H. injection H as <- <-. simpl. auto 10. }
  destruct (truthy_str (Some _) && _).
  { intros H. injection H as <- <-. simpl. auto 10. }
  destruct (truthy_str (ICreateLabelInput.icon input) && _).
  { intros H. injection H as <- <-. simpl. auto 10. }
  destruct (truthy_str (ICreateLabelInput.description input) && _).
  { intros H. injection H as <- <-. simpl. auto 10. }
  unfold labels_create, command. destruct (fault e (Create c_label)); discriminate.
Qed.

Lemma new_label_rejection_writes_nothing_witness :
  (new_label (Sample.env None 100000 Sample.healthy)
     (ICreateLabelInput.mk Sample.an_uuid "ab" None None None) Sample.one_user).2
  = Sample.one_user.
Proof.
  symmetry.
  apply (new_label_rejection_writes_nothing (Sample.env None 100000 Sample.healthy)
           (ICreateLabelInput.mk Sample.an_uuid "ab" None None None) Sample.one_user
           "invalid.label.name"
           (new_label (Sample.env None 100000 Sample.healthy)
              (ICreateLabelInput.mk Sample.an_uuid "ab" None None None) Sample.one_user).2
           eq_refl).
Defined.

(** ** The password rule of the signup route *)

Lemma forallb_firstn {A} (f : A -> bool) n l :
  forallb f l = true -> forallb f (firstn n l) = true.
Proof.
  revert l. induction n as [| n IH]; intros [| a l]; simpl; try reflexivity.
  intros H. apply andb_true_iff in H as [-> H]. now apply IH.
Qed.

Lemma password_pattern_first_three (s : string) :
  Signup.password_pattern s = true
  <-> (3 <= length (chars s))%nat
      /\ forallb Signup.password_class (firstn 3 (chars s)) = true.
Proof.
  unfold Signup.password_pattern. rewrite existsb_exists. split.
  - intros (k & Hk & H). apply in_seq in Hk.
    apply andb_true_iff in H as [Hlen Hall]. apply Nat.leb_le in Hlen.
    split; [lia |].
    replace 3%nat with (Nat.min 3 k) by lia.
    rewrite <- firstn_firstn. now apply forallb_firstn.
  - intros [Hlen Hall]. exists 3%nat. split.
    + apply in_seq. lia.
    + apply andb_true_iff. split; [now apply Nat.leb_le | exact Hall].
Qed.

(** X22: the password rule of the signup schema looks at the first three
    characters only: a string that extends an accepted password is
    accepted too, whatever its length and its further characters. *)
Theorem signup_password_accepts_any_extension (s t : string) :
  Signup.password s = true -> Signup.password (s ++ t) = true.
Proof.
  unfold Signup.password. intros H. apply andb_true_iff in H as [Hne H].
  apply password_pattern_first_three in H as [Hlen Hall].
  apply andb_true_iff. split.
  - unfold Joi.string_ in *. destruct s; [discriminate | reflexivity].
  - apply password_pattern_first_three. rewrite chars_app, length_app. split; [lia |].
    rewrite firstn_app.
    replace (3 - length (chars s))%nat with 0%nat by lia.
    now rewrite firstn_O, app_nil_r.
Qed.

Lemma signup_password_accepts_any_extension_witness :
  Signup.password
    ("abc" ++ " - more than thirty characters, with spaces and other signs: <>?")
  = true.
Proof. apply signup_password_accepts_any_extension. reflexivity. Defined.

Lemma label_char_fixed c :
  is_lower c || is_digit c || is_dash c || Ascii.eqb c "_"%char = true ->
  label_char c = c.
Proof.
  destruct c as [[|] [|] [|] [|] [|] [|] [|] [|]]; intros H;
    first [reflexivity | discriminate H].
Qed.

(** X23: a name that already passes [validate_label_name] is a fixed
    point of the normalisation of [new_label]: such a name is stored as
    it was given. *)
Theorem valid_label_name_is_kept (name : string) :
  Validators.validate_label_name name = true -> label_name name = name.
Proof.
  unfold Validators.validate_label_name, Validators.label_name_pattern. intros H.
  apply andb_true_iff in H as [_ H]. apply andb_true_iff in H as [_ Hclass].
  rewrite <- (string_of_list_ascii_of_string (label_name name)).
  rewrite <- (string_of_list_ascii_of_string name) at 2.
  f_equal. fold (chars (label_name name)) (chars name).
  rewrite label_name_chars.
  induction (chars name) as [| c l IH]; [reflexivity |].
  simpl in Hclass. apply andb_true_iff in Hclass as [Hc Hl].
  simpl. now rewrite (label_char_fixed c Hc), (IH Hl).
Qed.

Lemma valid_label_name_is_kept_witness : label_name "my_label-2" = "my_label-2".
Proof. apply valid_label_name_is_kept. reflexivity. Defined.

(** ** Signing up never disturbs the stored users *)

Lemma new_user_store e form headers st :
  exists r st',
    new_user e form headers st = (r, st')
    /\ machines st' = machines st
    /\ labels st' = labels st
    /\ (users st' = users st
        \/ exists u, users st' = <[fresh (dom (users st)) := u]> (users st)).
Proof.
  unfold new_user, try_catch. unfold mbind at 1, M_bind at 1. unfold users_create.
  destruct (fault e (Create c_user)) as [[code | msg] |].
  - simpl. destruct (code =? 11000); eexists _, _; (split; [reflexivity |]); simpl; auto.
  - eexists _, _. split; [reflexivity |]. simpl. auto.
  - destruct (duplicate_key form (users st)).
    + eexists _, _. split; [reflexivity |]. simpl. auto.
    + unfold mbind, M_bind, user_login. simpl.
      destruct (login e _ headers) as [[code | msg] | tok]; simpl.
      * destruct (code =? 11000); eexists _, _; (split; [reflexivity |]); simpl; eauto.
      * eexists _, _. split; [reflexivity |]. simpl. eauto.
      * eexists _, _. split; [reflexivity |]. simpl. eauto.
Qed.

(** X24: whatever the form, the faults and the outcome, [new_user]
    leaves every stored user as it was, and the machines and the labels
    too: a signup can add a user, never replace or remove one. *)
Theorem new_user_keeps_existing_users e form headers st :
  machines (new_user e form headers st).2 = machines st
  /\ labels (new_user e form headers st).2 = labels st
  /\ forall k x, users st !! k = Some x ->
                 users (new_user e form headers st).2 !! k = Some x.
Proof.
  destruct (new_user_store e form headers st) as (r & st' & -> & Hm & Hl & Hu). simpl.
  repeat split; try assumption.
  intros k x Hk. destruct Hu as [-> | [u ->]]; [exact Hk |].
  rewrite lookup_insert_ne; [exact Hk |].
  intros <-. rewrite fresh_id_free in Hk. discriminate.
Qed.

Lemma new_user_keeps_existing_users_witness :
  users (new_user (Sample.env None 100000 Sample.healthy) Cases.carol []
           Sample.one_user).2 !! 1%nat
  = Some Sample.alice.
Proof.
  apply (new_user_keeps_existing_users (Sample.env None 100000 Sample.healthy)
           Cases.carol [] Sample.one_user).
  reflexivity.
Defined.

(** ** The sweep over time and under failures *)

Lemma reap_check_Evict_later now now' m :
  now <= now' -> reap_check now m = Evict -> reap_check now' m = Evict.
Proof.
  unfold reap_check. intros Hle.
  destruct (IMachine.last_update m) as [t |]; [| reflexivity].
  destruct (Z.eqb_spec t 0); simpl; [reflexivity |].
  rewrite !Z.gtb_ltb.
  destruct (Z.ltb_spec thirty_days (now - t)).
  - intros _. destruct (Z.ltb_spec thirty_days (now' - t)); [reflexivity | lia].
  - destruct (status_eqb (IMachine.status m) Online && (ten_seconds <? now - t));
      discriminate.
Qed.

Lemma reap_writes_Evict id m a :
  reap_writes id m a = [DeleteMachine id] -> a = Evict.
Proof. destruct a; simpl; congruence. Qed.

(** X25: an eviction that is due stays due: if the loop body issues the
    delete of a machine at one time, it issues it at every later time
    too, in whatever store and whatever the faults. A delete that failed
    is therefore issued again by the next sweep. *)
Theorem eviction_stays_due e e' id m ps ps' st st' :
  now e <= now e' ->
  journal (cleanup_machine e (id, m) ps st).2 = (journal st ++ [DeleteMachine id])%list ->
  journal (cleanup_machine e' (id, m) ps' st').2 = (journal st' ++ [DeleteMachine id])%list.
Proof.
  intros Hle Hj. rewrite cleanup_machine_journal in Hj.
  apply app_inv_head, reap_writes_Evict in Hj.
  rewrite cleanup_machine_journal.
  now rewrite (reap_check_Evict_later _ _ _ Hle Hj).
Qed.

Lemma eviction_stays_due_witness :
  journal (cleanup_machine (Sample.env None 200000 Sample.healthy) (1%nat, Sample.silent) []
             Sample.empty).2
  = [DeleteMachine 1].
Proof.
  apply (eviction_stays_due (Sample.env None 100000 Sample.delete_1_fails)
           (Sample.env None 200000 Sample.healthy) 1%nat Sample.silent [] []
           Sample.fleet Sample.empty); [simpl; lia | reflexivity].
Defined.

(** X26: a failure of the lookup reaches the caller as it is: when the
    lookup call fails with an error, [find_one], [login_user] and
    [delete_user] (on well-formed credentials) and [login_machine]
    reject with that very error, and a sweep whose read of the machines
    fails rejects with it; in each case the store is left as it was. *)
Theorem lookup_failures_pass_through e st err :
  (forall c filter,
      fault e (FindOne c) = Some err ->
      find_one e c filter st = (Rejected (Thrown err), st))
  /\ (forall username password headers,
        fault e (FindOne c_user) = Some err ->
        Validators.validate_password password = true ->
        Validators.validate_username username = true ->
        login_user e username password headers st = (Rejected (Thrown err), st)
        /\ delete_user e username password st = (Rejected (Thrown err), st))
  /\ (forall access_token,
        fault e (FindOne c_machine) = Some err ->
        login_machine e access_token st = (Rejected (Thrown err), st))
  /\ (fault e (Find c_machine) = Some err ->
      shard_skips (SHARD_ID e) = false ->
      cleanup_database e st = (Rejected (Thrown err), st)).
Proof.
  assert (Hone : forall c filter, fault e (FindOne c) = Some err ->
                                  find_one e c filter st = (Rejected (Thrown err), st)).
  { intros c filter Hf.
    destruct c; simpl; unfold mbind, M_bind, users_findOne, labels_findOne,
      machines_findOne, query; now rewrite Hf. }
  split; [exact Hone |]. split; [| split].
  - intros username password headers Hf Hpw Hname.
    unfold login_user, delete_user, find_user. rewrite Hpw, Hname.
    change (negb true) with false. cbv beta iota. unfold mbind, M_bind.
    now rewrite (Hone c_user (by_username username) Hf).
  - intros access_token Hf. unfold login_machine, machines_findOne, query.
    unfold mbind, M_bind. now rewrite Hf.
  - intros Hf Hshard. unfold cleanup_database. rewrite shard_guard, Hshard.
    unfold mbind at 1, M_bind at 1. unfold machines_find, query. now rewrite Hf.
Qed.

Lemma lookup_failures_pass_through_witness :
  login_user Cases.offline "alice" "wonderland" [] Sample.one_user
  = (Rejected (Thrown (Error "connection lost")), Sample.one_user)
  /\ login_machine Cases.offline "token-quiet" Sample.fleet
     = (Rejected (Thrown (Error "connection lost")), Sample.fleet)
  /\ cleanup_database Cases.offline Sample.fleet
     = (Rejected (Thrown (Error "connection lost")), Sample.fleet).
Proof.
  split; [| split].
  - apply (lookup_failures_pass_through Cases.offline Sample.one_user
             (Error "connection lost")); reflexivity.
  - apply (lookup_failures_pass_through Cases.offline Sample.fleet
             (Error "connection lost")); reflexivity.
  - apply (lookup_failures_pass_through Cases.offline Sample.fleet
             (Error "connection lost")); reflexivity.
Defined.

(** * The sweep with its writes in flight *)

(** The requests are the storage calls of the sweep above. *)
Lemma request_is_command e r :
  command e (Async.call_of r) (Async.write_of r) (Async.effect r)
  = match r with
    | Async.delete_doc id => machine_delete e id
    | Async.save_doc id m => machine_save e id m
    end.
Proof. now destruct r. Qed.

(** The loop body issues the write the liveness rule plans. *)
Lemma async_cleanup_machine_plan e doc promises w :
  Async.cleanup_machine e doc (promises, w)
  = match Async.plan (now e) doc with
    | Some r => ((promises ++ [Async.next w])%list, (Async.dispatch r w).2)
    | None => (promises, w)
    end.
Proof.
  destruct doc as [id m]. unfold Async.cleanup_machine, Async.plan, reap_check. simpl.
  destruct (IMachine.last_update m) as [t |]; simpl; [| reflexivity].
  rewrite !stale_iff.
  destruct (t =? 0); simpl; [reflexivity |].
  destruct (now e - t >? thirty_days); simpl; [reflexivity |].
  now destruct (status_eqb (IMachine.status m) Online && (now e - t >? ten_seconds)).
Qed.

Lemma sweep_writes_plan now docs :
  sweep_writes now docs = Async.write_of <$> omap (Async.plan now) docs.
Proof.
  unfold sweep_writes. induction docs as [| d docs IH]; [reflexivity |].
  simpl. rewrite IH. unfold Async.plan at 2.
  now destruct (reap_check now d.2).
Qed.

Lemma plan_target now doc r : Async.plan now doc = Some r -> Async.target r = doc.1.
Proof.
  unfold Async.plan. destruct (reap_check now doc.2); intros H; try discriminate;
    injection H as <-; reflexivity.
Qed.

Lemma plan_None now doc : Async.plan now doc = None -> reap_check now doc.2 = NoTransition.
Proof. unfold Async.plan. now destruct (reap_check now doc.2). Qed.

Lemma issuing_quiescent now st : Async.issuing now st [] [] (Async.quiescent st).
Proof.
  unfold Async.issuing. simpl. repeat split; try constructor.
  now rewrite app_nil_r.
Qed.

Lemma issuing_step e st seen promises w doc :
  Async.issuing (now e) st seen promises w ->
  Async.issuing (now e) st (seen ++ [doc])
    (Async.cleanup_machine e doc (promises, w)).1
    (Async.cleanup_machine e doc (promises, w)).2.
Proof.
  intros (Hps & Hreqs & Hlt & Hnd & Hout & Hu & Hm & Hl & Hj).
  rewrite async_cleanup_machine_plan. unfold Async.issuing.
  rewrite omap_app. simpl.
  destruct (Async.plan (now e) doc) as [r |]; simpl.
  - rewrite !fmap_app. simpl. repeat split; try assumption.
    + now rewrite Hps.
    + now rewrite Hreqs.
    + apply Forall_app. split.
      * eapply Forall_impl; [exact Hlt |]. simpl. lia.
      * constructor; [lia | constructor].
    + apply NoDup_app. split; [exact Hnd |]. split.
      * intros p Hp Hin. apply list_elem_of_singleton in Hin as ->.
        rewrite Forall_forall in Hlt. specialize (Hlt _ Hp). lia.
      * apply NoDup_singleton.
    + rewrite Hj. now rewrite <- app_assoc.
  - rewrite !app_nil_r. repeat split; assumption.
Qed.

Lemma issuing_fold e st docs : forall seen promises w,
  Async.issuing (now e) st seen promises w ->
  Async.issuing (now e) st (seen ++ docs)
    (fold_left (fun acc doc => Async.cleanup_machine e doc acc) docs (promises, w)).1
    (fold_left (fun acc doc => Async.cleanup_machine e doc acc) docs (promises, w)).2.
Proof.
  induction docs as [| doc docs IH]; intros seen promises w H; simpl.
  - now rewrite app_nil_r.
  - pose proof (issuing_step e st seen promises w doc H) as Hstep.
    destruct (Async.cleanup_machine e doc (promises, w)) as [promises' w'].
    replace (seen ++ doc :: docs)%list with ((seen ++ [doc]) ++ docs)%list
      by now rewrite <- app_assoc.
    now apply IH.
Qed.

Lemma planned_targets now docs k :
  k ∈ Async.target <$> omap (Async.plan now) docs -> k ∈ docs.*1.
Proof.
  intros H. apply list_elem_of_fmap in H as (r & -> & Hr).
  apply list_elem_of_omap in Hr as (doc & Hdoc & Hplan).
  rewrite (plan_target _ _ _ Hplan). now apply list_elem_of_fmap_2.
Qed.

Lemma planned_targets_NoDup now docs :
  NoDup docs.*1 -> NoDup (Async.target <$> omap (Async.plan now) docs).
Proof.
  induction docs as [| doc docs IH]; simpl; [constructor |].
  intros Hnd. apply NoDup_cons in Hnd as [Hfresh Hnd].
  destruct (Async.plan now doc) as [r |] eqn:Hplan; simpl; [| now apply IH].
  apply NoDup_cons. split; [| now apply IH].
  rewrite (plan_target _ _ _ Hplan). intros Hin. apply Hfresh.
  now apply planned_targets in Hin.
Qed.

(** Once the loop has issued the writes, the settling can begin. *)
Lemma issuing_settling e st promises w :
  Async.issuing (now e) st (map_to_list (machines st)) promises w ->
  Async.settling e st promises w.
Proof.
  intros (Hps & Hreqs & _ & Hnd & Hout & Hu & Hm & Hl & Hj).
  unfold Async.settling. rewrite <- Hps, Hreqs, Hout, Hm, Hu, Hl.
  split; [exact Hnd |].
  split; [apply planned_targets_NoDup, NoDup_fst_map_to_list |].
  split; [| split; [| split; [| split]]].
  - intros p r Hin. split; [| split; [apply lookup_empty |]].
    + rewrite Hps. now apply (list_elem_of_fmap_2 fst) in Hin.
    + assert (Hr : r ∈ omap (Async.plan (now e)) (map_to_list (machines st))).
      { rewrite <- Hreqs. now apply (list_elem_of_fmap_2 snd) in Hin. }
      apply list_elem_of_omap in Hr as ([id m] & Hdoc & Hplan).
      apply elem_of_map_to_list in Hdoc.
      pose proof (plan_target _ _ _ Hplan) as Htarget. simpl in Htarget.
      exists m. rewrite Htarget. repeat split; assumption.
  - intros k Hk. unfold Async.final.
    destruct (machines st !! k) as [m |] eqn:Hm'; [| reflexivity].
    destruct (Async.plan (now e) (k, m)) as [r |] eqn:Hplan.
    + exfalso. apply Hk. apply list_elem_of_fmap. exists r. split.
      * now rewrite (plan_target _ _ _ Hplan).
      * apply list_elem_of_omap. exists (k, m). split; [| exact Hplan].
        now apply elem_of_map_to_list.
    + apply plan_None in Hplan. simpl in Hplan. now rewrite Hplan.
  - intros p Hp. now left.
  - rewrite map_size_empty, Hps, length_fmap. lia.
  - split; [reflexivity |]. split; [reflexivity |].
    rewrite Hj. now rewrite sweep_writes_plan.
Qed.

(** What the write on one document does to the documents. *)
Lemma effect_lookup r st k :
  machines (Async.effect r st) !! k
  = if decide (k = Async.target r)
    then match r with
         | Async.delete_doc _ => None
         | Async.save_doc _ m => Some m
         end
    else machines st !! k.
Proof.
  destruct r as [id | id m]; simpl; destruct (decide (k = id)) as [-> |].
  - apply lookup_delete_eq.
  - now apply lookup_delete_ne.
  - apply lookup_insert_eq.
  - now apply lookup_insert_ne.
Qed.

Lemma effect_frame r st :
  users (Async.effect r st) = users st
  /\ labels (Async.effect r st) = labels st
  /\ journal (Async.effect r st) = journal st.
Proof. now destruct r. Qed.

(** What the store holds under the target of a write that has settled. *)
Lemma carry_out_target e t rest w m :
  Async.plan (now e) (Async.target t.2, m) = Some t.2 ->
  machines (Async.store w) !! Async.target t.2 = Some m ->
  machines (Async.store (Async.carry_out e t rest w)) !! Async.target t.2
  = reap_result e (Async.target t.2) m (reap_check (now e) m).
Proof.
  unfold Async.plan, Async.carry_out. simpl. intros Hplan Hm.
  destruct (reap_check (now e) m); try discriminate; injection Hplan as <-; simpl.
  - destruct (fault e (DocDelete (Async.target t.2))); simpl; [exact Hm |].
    apply lookup_delete_eq.
  - destruct (fault e (DocSave (Async.target t.2))); simpl; [exact Hm |].
    apply lookup_insert_eq.
Qed.

Lemma carry_out_other e t rest w k :
  k <> Async.target t.2 ->
  machines (Async.store (Async.carry_out e t rest w)) !! k
  = machines (Async.store w) !! k.
Proof.
  intros Hk. unfold Async.carry_out.
  destruct (fault e (Async.call_of t.2)); simpl; [reflexivity |].
  rewrite effect_lookup. now rewrite decide_False.
Qed.

Lemma carry_out_frame e t rest w :
  users (Async.store (Async.carry_out e t rest w)) = users (Async.store w)
  /\ labels (Async.store (Async.carry_out e t rest w)) = labels (Async.store w)
  /\ journal (Async.store (Async.carry_out e t rest w)) = journal (Async.store w)
  /\ Async.pending (Async.carry_out e t rest w) = rest
  /\ exists o, Async.outcomes (Async.carry_out e t rest w) = <[t.1 := o]> (Async.outcomes w).
Proof.
  unfold Async.carry_out.
  destruct (fault e (Async.call_of t.2)); simpl.
  - repeat split; eauto.
  - destruct (effect_frame t.2 (Async.store w)) as (-> & -> & ->). repeat split; eauto.
Qed.

(** Settling one of the writes in flight keeps the others as they are. *)
Lemma carry_out_settling e st promises w t rest :
  Async.settling e st promises w ->
  Async.pending w ≡ₚ t :: rest ->
  Async.settling e st promises (Async.carry_out e t rest w).
Proof.
  intros (Hnd & Hnt & Hpending & Hfinal & Hpromises & Hcount & Hu & Hl & Hj) Hperm.
  destruct (carry_out_frame e t rest w) as (Hu' & Hl' & Hj' & Hrest & o & Hout).
  assert (Hin : t ∈ Async.pending w) by (rewrite Hperm; left).
  destruct t as [p0 r0].
  destruct (Hpending p0 r0 Hin) as (Hp0 & Hnone & m0 & Hm0 & Hplan0 & Hstored0).
  rewrite Hperm in Hnd, Hnt. simpl in Hnd, Hnt.
  apply NoDup_cons in Hnd as [Hp0_fresh Hnd]. apply NoDup_cons in Hnt as [Hr0_fresh Hnt].
  unfold Async.settling. rewrite Hrest, Hout, Hu', Hl', Hj'.
  split; [exact Hnd |]. split; [exact Hnt |].
  split; [| split; [| split; [| split]]].
  - intros p r Hpr.
    assert (Hold : (p, r) ∈ Async.pending w) by (rewrite Hperm; now right).
    destruct (Hpending p r Hold) as (Hp & Hnone' & m & Hm & Hplan & Hstored).
    assert (p <> p0).
    { intros ->. apply Hp0_fresh. now apply (list_elem_of_fmap_2 fst) in Hpr. }
    assert (Async.target r <> Async.target r0).
    { intros Heq. apply Hr0_fresh. rewrite <- Heq.
      apply list_elem_of_fmap_2. now apply (list_elem_of_fmap_2 snd) in Hpr. }
    split; [exact Hp |]. split; [now rewrite lookup_insert_ne |].
    exists m. repeat split; try assumption.
    pose proof (carry_out_other e (p0, r0) rest w (Async.target r)) as Hother.
    simpl in Hother. now rewrite Hother.
  - intros k Hk. destruct (decide (k = Async.target r0)) as [-> | Hne].
    + pose proof (carry_out_target e (p0, r0) rest w m0 Hplan0 Hstored0) as Htarget.
      simpl in Htarget. rewrite Htarget.
      unfold Async.final. now rewrite Hm0.
    + pose proof (carry_out_other e (p0, r0) rest w k Hne) as Hother.
      simpl in Hother. rewrite Hother. apply Hfinal.
      rewrite Hperm. simpl. intros Hin'. apply elem_of_cons in Hin' as [-> | Hin'];
        [now apply Hne | now apply Hk].
  - intros p Hp. destruct (decide (p = p0)) as [-> |].
    + right. rewrite lookup_insert_eq. eauto.
    + destruct (Hpromises p Hp) as [Hleft | Hright].
      * left. rewrite Hperm in Hleft. simpl in Hleft.
        apply elem_of_cons in Hleft as [-> | Hleft]; [congruence | exact Hleft].
      * right. now rewrite lookup_insert_ne.
  - rewrite (map_size_insert_None _ _ _ Hnone).
    rewrite <- Hcount, (Permutation_length Hperm). simpl. lia.
  - repeat split; assumption.
Qed.

(** A turn of the event loop settles exactly one of the writes in flight. *)
Lemma turn_settles_one e scheduler w :
  Async.pending w <> [] ->
  exists t rest,
    Async.pending w ≡ₚ t :: rest
    /\ Async.turn e scheduler w = Async.carry_out e t rest w.
Proof.
  intros Hne. unfold Async.turn.
  destruct (Async.pending w) as [| t rest] eqn:Hp; [congruence |].
  destruct ((t :: rest) !! scheduler (t :: rest).*1) as [t' |] eqn:Hi.
  - exists t', (delete (scheduler (t :: rest).*1) (t :: rest)).
    split; [now apply delete_Permutation | reflexivity].
  - exists t, rest. split; reflexivity.
Qed.

Lemma all_settled_nothing_pending e st promises w :
  Async.settling e st promises w ->
  forallb (Async.is_settled w) promises = true ->
  Async.pending w = [].
Proof.
  intros (_ & _ & Hpending & _) Hall.
  destruct (Async.pending w) as [| [p r] rest] eqn:Hp; [reflexivity |].
  destruct (Hpending p r ltac:(left)) as (Hin & Hnone & _).
  rewrite forallb_forall in Hall. apply list_elem_of_In in Hin.
  specialize (Hall p Hin). unfold Async.is_settled in Hall.
  rewrite Hnone in Hall. discriminate.
Qed.

(** The event loop, given a turn for each write in flight, settles them
    all, whatever the order and whatever fails. *)
Lemma turn_until_settled_settles e scheduler st promises fuel : forall w,
  Async.settling e st promises w ->
  (length (Async.pending w) <= fuel)%nat ->
  Async.settling e st promises (Async.turn_until_settled e scheduler fuel promises w)
  /\ Async.pending (Async.turn_until_settled e scheduler fuel promises w) = [].
Proof.
  induction fuel as [| fuel IH]; intros w Hw Hlen; simpl.
  - split; [exact Hw |]. destruct (Async.pending w); [reflexivity | simpl in Hlen; lia].
  - destruct (forallb (Async.is_settled w) promises) eqn:Hall.
    + split; [exact Hw | now apply (all_settled_nothing_pending e st promises)].
    + destruct (Async.pending w) as [| t0 rest0] eqn:Hp.
      * assert (Async.turn e scheduler w = w) as -> by (unfold Async.turn; now rewrite Hp).
        apply IH; [exact Hw | rewrite Hp; simpl; lia].
      * destruct (turn_settles_one e scheduler w) as (t & rest & Hperm & ->);
          [rewrite Hp; discriminate |].
        apply IH; [now apply (carry_out_settling e st promises w t rest) |].
        destruct (carry_out_frame e t rest w) as (_ & _ & _ & -> & _).
        apply Permutation_length in Hperm. rewrite Hp in *. simpl in *. lia.
Qed.

(** A sweep that is not skipped and reads the fleet, followed through
    its writes in flight. *)
Lemma async_sweep e scheduler st :
  shard_skips (SHARD_ID e) = false ->
  fault e (Find c_machine) = None ->
  exists promises w,
    Async.cleanup_database e scheduler st = (Async.Completed (Resolved tt), w)
    /\ Async.settling e st promises w
    /\ Async.pending w = []
    /\ length promises = length (sweep_writes (now e) (map_to_list (machines st))).
Proof.
  intros Hshard Hfind. unfold Async.cleanup_database.
  rewrite shard_guard, Hshard. unfold machines_find.
  rewrite (query_ok _ _ _ _ Hfind), filter_all.
  pose proof (issuing_fold e st (map_to_list (machines st)) [] [] (Async.quiescent st)
                (issuing_quiescent (now e) st)) as Hissued.
  simpl in Hissued.
  destruct (fold_left (fun acc doc => Async.cleanup_machine e doc acc)
              (map_to_list (machines st)) ([], Async.quiescent st)) as [promises w0].
  simpl in Hissued.
  assert (Hcount : length promises
                   = length (sweep_writes (now e) (map_to_list (machines st)))).
  { destruct Hissued as (-> & Hreqs & _).
    now rewrite sweep_writes_plan, <- Hreqs, !length_fmap. }
  apply issuing_settling in Hissued.
  unfold Async.Promise_allSettled.
  destruct (turn_until_settled_settles e scheduler st promises
              (length (Async.pending w0)) w0 Hissued ltac:(lia)) as [Hsettled Hnone].
  set (w := Async.turn_until_settled e scheduler (length (Async.pending w0)) promises w0)
    in *.
  assert (Hall : is_Some (mapM (fun p => settle <$> Async.outcomes w !! p) promises)).
  { apply mapM_is_Some, Forall_forall. intros p Hp. simpl.
    destruct Hsettled as (_ & _ & _ & _ & Hpromises & _).
    destruct (Hpromises p Hp) as [Hpending | [o Ho]].
    - rewrite Hnone in Hpending. now apply elem_of_nil in Hpending.
    - rewrite Ho. simpl. eauto. }
  destruct Hall as [outs ->]. exists promises, w.
  split; [reflexivity |]. repeat (split; [assumption |]). exact Hcount.
Qed.

(** The store the sweep ends with does not depend on the order in which
    its writes settle: it is the store of the model that settles each
    write where it is issued. *)
Lemma async_sweep_store e scheduler st :
  shard_skips (SHARD_ID e) = false ->
  fault e (Find c_machine) = None ->
  Async.store (Async.cleanup_database e scheduler st).2 = (cleanup_database e st).2.
Proof.
  intros Hshard Hfind.
  destruct (async_sweep e scheduler st Hshard Hfind)
    as (promises & w & -> & Hsettled & Hnone & _).
  destruct (cleanup_database_sweep e st Hshard Hfind) as (st' & -> & Hu & Hl & Hj & Hk).
  destruct Hsettled as (_ & _ & _ & Hfinal & _ & _ & Hu' & Hl' & Hj'). simpl.
  assert (Hm : machines (Async.store w) = machines st').
  { apply map_eq. intros k. rewrite Hk, Hfinal; [reflexivity |].
    rewrite Hnone. apply not_elem_of_nil. }
  rewrite <- (store_eta (Async.store w)), <- (store_eta st'). congruence.
Qed.

(** C6: a sweep that is not skipped and reads the fleet issues every
    pending delete and save before any of them settles, then waits: it
    completes, resolved, only when no write is in flight any more and
    each promise has its outcome, in whatever order the writes settle
    and whichever of them fail.  Each machine ends as its own write
    settled: evicted or demoted if that write went through, untouched if
    it failed or none was due; the failure of one write keeps no other
    from being carried out. *)
Theorem cleanup_database_waits_for_every_write e scheduler st :
  shard_skips (SHARD_ID e) = false ->
  fault e (Find c_machine) = None ->
  exists w,
    Async.cleanup_database e scheduler st = (Async.Completed (Resolved tt), w)
    /\ Async.pending w = []
    /\ size (Async.outcomes w) = length (sweep_writes (now e) (map_to_list (machines st)))
    /\ journal (Async.store w)
       = (journal st ++ sweep_writes (now e) (map_to_list (machines st)))%list
    /\ (forall k, machines st !! k = None -> machines (Async.store w) !! k = None)
    /\ (forall k m, machines st !! k = Some m ->
        match reap_check (now e) m with
        | Evict =>
            (fault e (DocDelete k) = None -> machines (Async.store w) !! k = None)
            /\ (fault e (DocDelete k) <> None -> machines (Async.store w) !! k = Some m)
        | Demote =>
            (fault e (DocSave k) = None ->
             machines (Async.store w) !! k = Some (IMachine.set_status Offline m))
            /\ (fault e (DocSave k) <> None -> machines (Async.store w) !! k = Some m)
        | NoTransition => machines (Async.store w) !! k = Some m
        end).
Proof.
  intros Hshard Hfind.
  destruct (async_sweep e scheduler st Hshard Hfind)
    as (promises & w & Hrun & Hsettled & Hnone & Hlen).
  destruct Hsettled as (_ & _ & _ & Hfinal & _ & Hcount & _ & _ & Hj).
  assert (Hk : forall k, machines (Async.store w) !! k = Async.final e st k).
  { intros k. apply Hfinal. rewrite Hnone. apply not_elem_of_nil. }
  exists w. split; [exact Hrun |]. split; [exact Hnone |].
  split; [rewrite Hnone in Hcount; simpl in Hcount; congruence |].
  split; [exact Hj |]. split.
  - intros k Hk0. rewrite Hk. unfold Async.final. now rewrite Hk0.
  - intros k m Hm. rewrite Hk. unfold Async.final. rewrite Hm.
    destruct (reap_check (now e) m); simpl; [| | reflexivity].
    + destruct (fault e (DocDelete k)); split; congruence.
    + destruct (fault e (DocSave k)); split; congruence.
Qed.

Lemma cleanup_database_waits_for_every_write_witness :
  exists w,
    Async.cleanup_database (Sample.env None 100000 Sample.delete_1_fails)
      Async.youngest_first Sample.fleet
    = (Async.Completed (Resolved tt), w)
    /\ Async.pending w = []
    /\ machines (Async.store w) !! 1%nat = Some Sample.silent
    /\ machines (Async.store w) !! 2%nat = Some (IMachine.set_status Offline Sample.quiet)
    /\ machines (Async.store w) !! 3%nat = Some Sample.lively.
Proof.
  destruct (cleanup_database_waits_for_every_write
              (Sample.env None 100000 Sample.delete_1_fails) Async.youngest_first
              Sample.fleet eq_refl eq_refl)
    as (w & Hrun & Hnone & _ & _ & _ & Hk).
  exists w. split; [exact Hrun |]. split; [exact Hnone |].
  split; [| split].
  - apply (Hk 1%nat Sample.silent eq_refl). discriminate.
  - now apply (Hk 2%nat Sample.quiet eq_refl).
  - apply (Hk 3%nat Sample.lively eq_refl).
Defined.

(** The two writes of the sample fleet, the delete failing, settled in
    either order. *)
Example async_sweep_in_either_order :
  Async.store (Async.cleanup_database (Sample.env None 100000 Sample.delete_1_fails)
                 Async.oldest_first Sample.fleet).2
  = Async.store (Async.cleanup_database (Sample.env None 100000 Sample.delete_1_fails)
                   Async.youngest_first Sample.fleet).2
  /\ Async.outcomes (Async.cleanup_database (Sample.env None 100000 Sample.delete_1_fails)
                       Async.youngest_first Sample.fleet).2
     = <[1%nat := Rejected (Thrown (Error "connection lost"))]> {[ 0%nat := Resolved tt ]}.
Proof.
  split.
  - now rewrite !async_sweep_store.
  - vm_compute. reflexivity.
Qed.
